(** * MSF document engine: identifiers, line index, templates, page mappings

    A shallow embedding of the front-end services of the MSF editor
    (uuidGenerator, xmlLineIndex, templateExtractor, pdfPageMapper), with the
    properties stated for them.

    Conventions of the embedding.
    - A JavaScript string is a [string] (a sequence of 8-bit characters); the
      scanners work on its list of characters.
    - A JavaScript number is a [JS.number]: NaN, the two infinities, or a
      finite value held as an exact rational.  Rounding of doubles and the
      sign of zero are not modelled.
    - A JavaScript object is an association list from property names to
      values, in insertion order; a [Map] is a finite map.
    - Module-level mutable state (the page-mapping store, the console, the
      source of random identifiers) is passed explicitly. *)

From Stdlib Require Import ZArith QArith Qround Lia Lqa Ascii String List Bool Sorted.
From Stdlib Require Import DecimalString.
From stdpp Require Import gmap strings list.
From Equations Require Import Equations.
Import ListNotations.

#[local] Set Warnings "-register-all".
#[local] Set Warnings "-clear-no-such-hyp".

(** ** JavaScript values *)

Module JS.

(** Numbers. [Fin q] is a finite number; two [Fin] with equal rationals
    ([Qeq]) denote the same number. *)
Inductive number :=
| NaN
| PosInf
| NegInf
| Fin (q : Q).

Definition of_Z (z : Z) : number := Fin (inject_Z z).
Definition of_nat (n : nat) : number := of_Z (Z.of_nat n).

(** [a === b] on numbers. *)
Definition strict_eq (a b : number) : bool :=
  match a, b with
  | PosInf, PosInf => true
  | NegInf, NegInf => true
  | Fin x, Fin y => Qeq_bool x y
  | _, _ => false
  end.

(** [a < b]: false as soon as one side is NaN. *)
Definition lt (a b : number) : bool :=
  match a, b with
  | NaN, _ | _, NaN => false
  | PosInf, _ => false
  | _, PosInf => true
  | _, NegInf => false
  | NegInf, _ => true
  | Fin x, Fin y => negb (Qle_bool y x)
  end.

(** [a <= b]. *)
Definition le (a b : number) : bool :=
  match a, b with
  | NaN, _ | _, NaN => false
  | _, PosInf => true
  | PosInf, _ => false
  | NegInf, _ => true
  | _, NegInf => false
  | Fin x, Fin y => Qle_bool x y
  end.

(** [a >= b] is [b <= a]. *)
Definition ge (a b : number) : bool := le b a.

(** ToBoolean on numbers: 0 and NaN are falsy. *)
Definition truthy_number (a : number) : bool :=
  match a with
  | NaN => false
  | Fin q => negb (Qeq_bool q 0)
  | _ => true
  end.

Definition Qsign_neg (q : Q) : bool := negb (Qle_bool 0 q).

Definition inf (negative : bool) : number :=
  if negative then NegInf else PosInf.

Definition add (a b : number) : number :=
  match a, b with
  | NaN, _ | _, NaN => NaN
  | PosInf, NegInf | NegInf, PosInf => NaN
  | PosInf, _ | _, PosInf => PosInf
  | NegInf, _ | _, NegInf => NegInf
  | Fin x, Fin y => Fin (x + y)
  end.

Definition mul_inf (negative : bool) (b : number) : number :=
  match b with
  | NaN => NaN
  | PosInf => inf negative
  | NegInf => inf (negb negative)
  | Fin y => if Qeq_bool y 0 then NaN else inf (xorb negative (Qsign_neg y))
  end.

Definition mul (a b : number) : number :=
  match a, b with
  | NaN, _ | _, NaN => NaN
  | PosInf, _ => mul_inf false b
  | NegInf, _ => mul_inf true b
  | Fin x, Fin y => Fin (x * y)
  | Fin _, _ => mul_inf (match b with NegInf => true | _ => false end) a
  end.

(** [a / b]; a finite number over zero is an infinity of the sign of the
    numerator (zero is taken positive), zero over zero is NaN. *)
Definition div (a b : number) : number :=
  match a, b with
  | NaN, _ | _, NaN => NaN
  | Fin x, Fin y =>
      if Qeq_bool y 0
      then (if Qeq_bool x 0 then NaN else inf (Qsign_neg x))
      else Fin (x / y)
  | Fin _, _ => Fin 0
  | PosInf, Fin y => inf (Qsign_neg y)
  | NegInf, Fin y => inf (negb (Qsign_neg y))
  | _, _ => NaN
  end.

(** [Math.floor]. *)
Definition floor (a : number) : number :=
  match a with
  | Fin q => of_Z (Qfloor q)
  | _ => a
  end.

(** [Math.max(a, b)]. *)
Definition max (a b : number) : number :=
  match a, b with
  | NaN, _ | _, NaN => NaN
  | _, _ => if lt a b then b else a
  end.

(** Values. Object properties are kept in insertion order. *)
Inductive value :=
| Undefined
| Null
| Bool (b : bool)
| Num (n : number)
| Str (s : string)
| Arr (items : list value)
| Obj (props : list (string * value)).

(** ToBoolean. *)
Definition truthy (v : value) : bool :=
  match v with
  | Undefined | Null => false
  | Bool b => b
  | Num n => truthy_number n
  | Str s => negb (String.eqb s "")
  | Arr _ | Obj _ => true
  end.

(** [typeof v]. *)
Definition typeof (v : value) : string :=
  match v with
  | Undefined => "undefined"
  | Null => "object"
  | Bool _ => "boolean"
  | Num _ => "number"
  | Str _ => "string"
  | Arr _ | Obj _ => "object"
  end.

(** A call returns a value or throws. *)
Inductive outcome (A : Type) :=
| Return (a : A)
| Throw.
Arguments Return {A} a.
Arguments Throw {A}.

(** *** The order of numbers *)

Lemma le_Fin x y : le (Fin x) (Fin y) = true <-> (x <= y)%Q.
Proof. apply Qle_bool_iff. Qed.

Lemma Qle_bool_false x y : Qle_bool x y = false -> (y < x)%Q.
Proof.
  intros H. destruct (Qlt_le_dec y x) as [Hl | Hl]; [exact Hl |].
  apply Qle_bool_iff in Hl. congruence.
Qed.

(** Case analysis on numbers, with the comparisons of rationals turned into
    propositions for [lra]. *)
Ltac number_cases :=
  unfold ge, le, lt in *; simpl in *;
  repeat match goal with
    | H : negb _ = true |- _ => apply negb_true_iff in H
    | H : negb _ = false |- _ => apply negb_false_iff in H
    | |- negb _ = true => apply negb_true_iff
    | |- negb _ = false => apply negb_false_iff
    end;
  repeat match goal with
    | H : Qle_bool _ _ = true |- _ => apply Qle_bool_iff in H
    | H : Qle_bool _ _ = false |- _ => apply Qle_bool_false in H
    end;
  try congruence;
  try (apply Qle_bool_iff; lra);
  try (apply not_true_is_false; intros ?%Qle_bool_iff; lra).

Lemma le_refl a : a <> NaN -> le a a = true.
Proof. destruct a; intros; number_cases. Qed.

Lemma lt_le a b : lt a b = true -> le a b = true.
Proof. destruct a, b; intros; number_cases. Qed.

Lemma not_lt_le a b : a <> NaN -> b <> NaN -> lt a b = false -> le b a = true.
Proof. destruct a, b; intros; number_cases. Qed.

Lemma le_trans a b c : le a b = true -> le b c = true -> le a c = true.
Proof. destruct a, b, c; intros; number_cases. Qed.

Lemma max_cases a b :
  a <> NaN -> b <> NaN -> max a b = if lt a b then b else a.
Proof. destruct a, b; congruence || reflexivity. Qed.

Lemma le_max_l a b : a <> NaN -> b <> NaN -> le a (max a b) = true.
Proof.
  intros Ha Hb. rewrite max_cases by assumption.
  destruct (lt a b) eqn:Hlt.
  - apply lt_le. assumption.
  - apply le_refl. assumption.
Qed.

Lemma max_mono a b b' :
  a <> NaN -> b <> NaN -> b' <> NaN ->
  le b b' = true -> le (max a b) (max a b') = true.
Proof.
  intros Ha Hb Hb' H. rewrite !max_cases by assumption.
  destruct (lt a b) eqn:Hlt, (lt a b') eqn:Hlt'.
  - assumption.
  - apply le_trans with b'; [assumption |]. apply not_lt_le; assumption.
  - apply lt_le. assumption.
  - apply le_refl. assumption.
Qed.

End JS.

(** ** pdfPageMapper.ts *)

Module PdfPageMapper.
Import JS.

(** interface PageMapping *)
Record PageMapping := {
  functionPUI : value;
  pageNumber : number
}.

(** The two messages that [setPageMapping] writes with [console.warn]. *)
Inductive warning :=
| InvalidPageNumber (pageNumber : number)
| InvalidFunctionPUI.

(** The module state: the [pageMappings] map and the console.  The order of
    insertion into the map, which only [getAllPageMappings] shows, is not
    kept. *)
Record state := {
  pageMappings : gmap string number;
  console : list warning
}.

Definition initial : state := {| pageMappings := ∅; console := [] |}.

Definition warn (w : warning) (st : state) : state :=
  {| pageMappings := pageMappings st; console := console st ++ [w] |}.

Definition setPageMapping (functionPUI : value) (pageNumber : number)
  (st : state) : state :=
  if lt pageNumber (Fin 1) then warn (InvalidPageNumber pageNumber) st
  else if negb (truthy functionPUI) || negb (String.eqb (typeof functionPUI) "string")
  then warn InvalidFunctionPUI st
  else match functionPUI with
       | Str key =>
           {| pageMappings := <[key := pageNumber]> (pageMappings st);
              console := console st |}
       | _ => st
       end.

(** [pageMappings.get(functionPUI) || null] *)
Definition getPageMapping (functionPUI : string) (st : state) : value :=
  match pageMappings st !! functionPUI with
  | Some n => if truthy_number n then Num n else Null
  | None => Null
  end.

Definition removePageMapping (functionPUI : string) (st : state) : state :=
  {| pageMappings := delete functionPUI (pageMappings st);
     console := console st |}.

Definition clearAllPageMappings (st : state) : state :=
  {| pageMappings := ∅; console := console st |}.

Definition loadPageMappings (mappings : list PageMapping) (st : state) : state :=
  fold_left (fun acc m => setPageMapping (functionPUI m) (pageNumber m) acc)
    mappings (clearAllPageMappings st).

(** [totalPages] is optional: [None] is a call without it. *)
Definition estimatePageNumber (sequence totalFunctions : number)
  (totalPages : option number) : number :=
  if strict_eq sequence (Fin 0) then Fin 1
  else
    let defaultPagesPerFunction := Fin 3 in
    let fallback := add (Fin 1) (mul sequence defaultPagesPerFunction) in
    match totalPages with
    | Some pages =>
        if truthy_number pages then
          let pagesPerFunction := floor (div pages totalFunctions) in
          max (Fin 1) (add (Fin 1) (mul sequence pagesPerFunction))
        else fallback
    | None => fallback
    end.

(** *** Properties of the page-mapping store *)

(** The identifier is a non-empty string. *)
Definition nonEmptyString (v : value) : Prop :=
  exists s, v = Str s /\ s <> ""%string.

(** The checks that the specification names for an entry: a non-empty string
    identifier and a page number that is at least 1. *)
Definition passes (m : PageMapping) : bool :=
  ge (pageNumber m) (Fin 1) &&
  match functionPUI m with
  | Str s => negb (String.eqb s "")
  | _ => false
  end.

Definition hasKey (k : string) (m : PageMapping) : bool :=
  match functionPUI m with
  | Str s => String.eqb s k
  | _ => false
  end.

(** The page number of the last entry of [ms] for identifier [k] that passes
    the checks. *)
Definition lastValid (k : string) (ms : list PageMapping) : option number :=
  option_map pageNumber
    (last (List.filter (fun m => passes m && hasKey k m) ms)).

Lemma nonEmptyString_check v :
  negb (truthy v) || negb (String.eqb (typeof v) "string") = false <->
  nonEmptyString v.
Proof.
  split.
  - destruct v; simpl; try discriminate.
    + destruct b; discriminate.
    + destruct (truthy_number n); discriminate.
    + destruct (String.eqb_spec s ""); simpl; try discriminate.
      intros _. exists s. split; [reflexivity | assumption].
  - intros (s & -> & Hs). simpl.
    destruct (String.eqb_spec s ""); [contradiction | reflexivity].
Qed.

Lemma setPageMapping_accepts key p st :
  lt p (Fin 1) = false -> key <> ""%string ->
  setPageMapping (Str key) p st =
  {| pageMappings := <[key := p]> (pageMappings st); console := console st |}.
Proof.
  intros Hp Hk. unfold setPageMapping. rewrite Hp.
  assert (Hn : nonEmptyString (Str key)) by (exists key; auto).
  apply nonEmptyString_check in Hn. rewrite Hn. reflexivity.
Qed.

Lemma lt_one_false_ge p :
  p <> NaN -> lt p (Fin 1) = negb (ge p (Fin 1)).
Proof.
  intros Hp. destruct p; try reflexivity; congruence.
Qed.

Lemma fold_setPageMapping_app ms1 ms2 st :
  fold_left (fun acc m => setPageMapping (functionPUI m) (pageNumber m) acc)
    (ms1 ++ ms2) st =
  fold_left (fun acc m => setPageMapping (functionPUI m) (pageNumber m) acc)
    ms2
    (fold_left (fun acc m => setPageMapping (functionPUI m) (pageNumber m) acc)
       ms1 st).
Proof. apply fold_left_app. Qed.

(** One entry applied to the store: it is written when it passes the checks
    (and is not NaN), and the store is untouched otherwise. *)
Lemma setPageMapping_lookup m st k :
  pageNumber m <> NaN ->
  pageMappings (setPageMapping (functionPUI m) (pageNumber m) st) !! k =
  if passes m && hasKey k m then Some (pageNumber m)
  else pageMappings st !! k.
Proof.
  intros Hnan. unfold setPageMapping, passes, hasKey.
  rewrite (lt_one_false_ge _ Hnan).
  destruct (ge (pageNumber m) (Fin 1)); simpl; [| reflexivity].
  destruct (functionPUI m) as [| | b | n | s | l | o]; simpl; try reflexivity.
  - destruct b; reflexivity.
  - destruct (truthy_number n); reflexivity.
  - destruct (String.eqb_spec s ""); simpl; [reflexivity |].
    destruct (String.eqb_spec s k) as [-> | Hne].
    + apply lookup_insert_eq.
    + apply lookup_insert_ne. assumption.
Qed.

Lemma loadPageMappings_from ms st k :
  Forall (fun m => pageNumber m <> NaN) ms ->
  pageMappings
    (fold_left (fun acc m => setPageMapping (functionPUI m) (pageNumber m) acc)
       ms st) !! k =
  match lastValid k ms with
  | Some p => Some p
  | None => pageMappings st !! k
  end.
Proof.
  induction ms as [| m ms IH] using rev_ind; intros Hall.
  - reflexivity.
  - apply Forall_app in Hall as [Hms Hm]. inversion Hm as [| ? ? Hnan _]; subst.
    rewrite fold_setPageMapping_app. simpl.
    rewrite (setPageMapping_lookup _ _ _ Hnan).
    unfold lastValid. rewrite List.filter_app. simpl.
    destruct (passes m && hasKey k m).
    + rewrite last_snoc. reflexivity.
    + rewrite app_nil_r. apply IH. assumption.
Qed.

(** C7. If the page number is below 1, or the identifier is not a non-empty
    string, [setPageMapping] leaves every mapping of the store as it was: the
    call only adds one warning to the console.  (No statement of the function
    can throw; it is a total function of the state.) *)
Theorem setPageMapping_invalid_unchanged functionPUI p st :
  lt p (Fin 1) = true \/ ~ nonEmptyString functionPUI ->
  pageMappings (setPageMapping functionPUI p st) = pageMappings st /\
  exists w, setPageMapping functionPUI p st = warn w st.
Proof.
  intros H. unfold setPageMapping.
  destruct (lt p (Fin 1)) eqn:Hp.
  - split; [reflexivity | eexists; reflexivity].
  - destruct H as [H | H]; [discriminate |].
    destruct (negb (truthy functionPUI) ||
              negb (String.eqb (typeof functionPUI) "string")) eqn:Hc.
    + split; [reflexivity | eexists; reflexivity].
    + apply nonEmptyString_check in Hc. contradiction.
Qed.

Lemma setPageMapping_invalid_unchanged_witness :
  lt (Fin 0) (Fin 1) = true /\
  pageMappings (setPageMapping (Str "{FUNC-1}") (Fin 0) initial) =
  pageMappings initial.
Proof.
  split; [reflexivity |].
  apply (setPageMapping_invalid_unchanged (Str "{FUNC-1}") (Fin 0) initial).
  left. reflexivity.
Defined.

(** C9, as stated, fails on a list that names one identifier twice: both
    entries pass the checks, and the store keeps only the second. *)
Lemma loadPageMappings_duplicate_counterexample :
  let ms := [ {| functionPUI := Str "{FUNC-1}"; pageNumber := Fin 5 |};
              {| functionPUI := Str "{FUNC-1}"; pageNumber := Fin 10 |} ] in
  ~ (forall m, In m ms -> passes m = true ->
       exists k, functionPUI m = Str k /\
         pageMappings (loadPageMappings ms initial) !! k = Some (pageNumber m)).
Proof.
  intros ms H.
  destruct (H {| functionPUI := Str "{FUNC-1}"; pageNumber := Fin 5 |})
    as (k & Hk & Hlook).
  - left. reflexivity.
  - reflexivity.
  - simpl in Hk. injection Hk as <-.
    unfold loadPageMappings, ms in Hlook.
    cbn [fold_left functionPUI pageNumber] in Hlook.
    rewrite !setPageMapping_accepts in Hlook by (reflexivity || discriminate).
    cbn [pageMappings] in Hlook.
    rewrite lookup_insert_eq in Hlook. discriminate.
Qed.

(** C9, amended. [loadPageMappings ms] replaces the whole store: whatever it
    held before, afterwards each identifier is mapped to the page number of
    the last entry of [ms] for it that passes the checks (non-empty string
    identifier, page number at least 1), and an identifier without such an
    entry is not mapped.  Stated for lists whose page numbers are numbers
    other than NaN. *)
Theorem loadPageMappings_last_valid ms st k :
  Forall (fun m => pageNumber m <> NaN) ms ->
  pageMappings (loadPageMappings ms st) !! k = lastValid k ms.
Proof.
  intros Hall. unfold loadPageMappings.
  rewrite loadPageMappings_from by assumption.
  simpl. rewrite lookup_empty. destruct (lastValid k ms); reflexivity.
Qed.

Lemma loadPageMappings_last_valid_witness :
  let ms := [ {| functionPUI := Str "{FUNC-1}"; pageNumber := Fin 5 |};
              {| functionPUI := Str ""; pageNumber := Fin 7 |};
              {| functionPUI := Str "{FUNC-2}"; pageNumber := Fin 0 |};
              {| functionPUI := Str "{FUNC-1}"; pageNumber := Fin 10 |} ] in
  let st := setPageMapping (Str "{FUNC-OLD}") (Fin 99) initial in
  Forall (fun m => pageNumber m <> NaN) ms /\
  pageMappings (loadPageMappings ms st) !! "{FUNC-1}" = Some (Fin 10) /\
  pageMappings (loadPageMappings ms st) !! "{FUNC-2}" = None /\
  pageMappings (loadPageMappings ms st) !! "{FUNC-OLD}" = None.
Proof.
  intros ms st.
  assert (Hall : Forall (fun m => pageNumber m <> NaN) ms)
    by (repeat constructor; discriminate).
  split; [exact Hall |].
  split; [| split].
  - rewrite (loadPageMappings_last_valid ms st "{FUNC-1}" Hall). reflexivity.
  - rewrite (loadPageMappings_last_valid ms st "{FUNC-2}" Hall). reflexivity.
  - rewrite (loadPageMappings_last_valid ms st "{FUNC-OLD}" Hall). reflexivity.
Defined.

(** C10 at the input that breaks it. [NaN < 1] is false, so the guard of
    [setPageMapping] lets NaN through: the store then holds a page number
    that is not at least 1, and [getPageMapping] answers null for an
    identifier that is mapped. *)
Theorem setPageMapping_NaN_is_stored :
  let st := setPageMapping (Str "{FUNC-1}") NaN initial in
  pageMappings st !! "{FUNC-1}" = Some NaN /\
  ge NaN (Fin 1) = false /\
  getPageMapping "{FUNC-1}" st = Null.
Proof.
  intros st. unfold st, getPageMapping.
  rewrite setPageMapping_accepts by (reflexivity || discriminate).
  simpl. rewrite lookup_insert_eq. split; [| split]; reflexivity.
Qed.

(** Apart from NaN the guard does what its message says: a store whose page
    numbers are all at least 1 stays so under every operation. *)
Definition allAtLeastOne (st : state) : Prop :=
  forall k p, pageMappings st !! k = Some p -> ge p (Fin 1) = true.

Lemma setPageMapping_keeps_allAtLeastOne functionPUI p st :
  p <> NaN -> allAtLeastOne st -> allAtLeastOne (setPageMapping functionPUI p st).
Proof.
  intros Hnan Hinv k q.
  change p with (pageNumber {| functionPUI := functionPUI; pageNumber := p |}).
  change functionPUI with
    (PdfPageMapper.functionPUI {| functionPUI := functionPUI; pageNumber := p |})
    at 1.
  rewrite setPageMapping_lookup by assumption.
  destruct (passes _ && hasKey k _) eqn:Hc.
  - intros [= <-]. apply andb_true_iff in Hc as [Hc _].
    apply andb_true_iff in Hc as [Hc _]. exact Hc.
  - apply Hinv.
Qed.

Lemma removePageMapping_keeps_allAtLeastOne functionPUI st :
  allAtLeastOne st -> allAtLeastOne (removePageMapping functionPUI st).
Proof.
  intros Hinv k q. simpl. intros Hl.
  apply lookup_delete_Some in Hl as [_ Hl]. eapply Hinv, Hl.
Qed.

Lemma clearAllPageMappings_allAtLeastOne st :
  allAtLeastOne (clearAllPageMappings st).
Proof. intros k q. simpl. rewrite lookup_empty. discriminate. Qed.

Lemma loadPageMappings_allAtLeastOne ms st :
  Forall (fun m => pageNumber m <> NaN) ms ->
  allAtLeastOne (loadPageMappings ms st).
Proof.
  intros Hall. unfold loadPageMappings.
  pose proof (clearAllPageMappings_allAtLeastOne st) as Hinv.
  revert Hinv. generalize (clearAllPageMappings st).
  induction Hall as [| m ms Hm _ IH]; intros acc Hinv; [exact Hinv |].
  simpl. apply IH. apply setPageMapping_keeps_allAtLeastOne; assumption.
Qed.

(** *** Page estimation *)

Lemma strict_eq_of_nat_zero s :
  strict_eq (of_nat s) (Fin 0) = Nat.eqb s 0.
Proof. destruct s; reflexivity. Qed.

Lemma truthy_of_nat t : truthy_number (of_nat t) = negb (Nat.eqb t 0).
Proof. destruct t; reflexivity. Qed.

(** What [Math.floor(totalPages / totalFunctions)] is on two counts, the
    first of them positive. *)
Lemma pagesPerFunction_counts t N :
  floor (div (of_nat (S t)) (of_nat N)) =
  match N with
  | O => PosInf
  | S _ => of_Z (Z.of_nat (S t) / Z.of_nat N)
  end.
Proof.
  destruct N as [| n]; [reflexivity |].
  unfold of_nat, of_Z, div.
  replace (Qeq_bool (inject_Z (Z.of_nat (S n))) 0) with false by reflexivity.
  unfold floor, of_Z. rewrite <- Zdiv_Qdiv. reflexivity.
Qed.

(** The page reached after [s] functions of [k] pages each, [k] being a
    non-negative whole number or infinite. *)
Definition wholeOrInfinite (k : number) : Prop :=
  k = PosInf \/ exists z : Z, (0 <= z)%Z /\ k = of_Z z.

Lemma wholeOrInfinite_pagesPerFunction t N :
  wholeOrInfinite (floor (div (of_nat (S t)) (of_nat N))).
Proof.
  rewrite pagesPerFunction_counts. destruct N as [| n].
  - left. reflexivity.
  - right. eexists. split; [| reflexivity].
    apply Z.div_pos; lia.
Qed.

Lemma spread_not_NaN s k :
  wholeOrInfinite k -> add (Fin 1) (mul (of_nat (S s)) k) <> NaN.
Proof.
  intros [-> | (z & _ & ->)]; discriminate.
Qed.

Lemma spread_at_least_one s k :
  wholeOrInfinite k -> le (Fin 1) (add (Fin 1) (mul (of_nat (S s)) k)) = true.
Proof.
  intros [-> | (z & Hz & ->)].
  - reflexivity.
  - unfold of_nat, of_Z. cbn [mul add]. apply le_Fin.
    rewrite <- inject_Z_mult. rewrite <- (inject_Z_plus 1).
    change 1%Q with (inject_Z 1). rewrite <- Zle_Qle. nia.
Qed.

Lemma spread_monotone s1 s2 k :
  wholeOrInfinite k -> s1 <= s2 ->
  le (add (Fin 1) (mul (of_nat (S s1)) k))
     (add (Fin 1) (mul (of_nat (S s2)) k)) = true.
Proof.
  intros [-> | (z & Hz & ->)] Hs.
  - reflexivity.
  - unfold of_nat, of_Z. cbn [mul add]. apply le_Fin.
    rewrite <- !inject_Z_mult. rewrite <- !(inject_Z_plus 1).
    rewrite <- Zle_Qle. nia.
Qed.

Lemma estimatePageNumber_at_least_one (s N : nat) (T : option nat) :
  le (Fin 1)
     (estimatePageNumber (of_nat s) (of_nat N) (option_map of_nat T)) = true.
Proof.
  unfold estimatePageNumber. rewrite strict_eq_of_nat_zero.
  destruct s as [| s]; [reflexivity |]. cbn [Nat.eqb].
  assert (Hdef : le (Fin 1) (add (Fin 1) (mul (of_nat (S s)) (Fin 3))) = true).
  { apply spread_at_least_one. right. exists 3%Z. split; [lia | reflexivity]. }
  destruct T as [[| t] |]; cbn [option_map]; try exact Hdef.
  rewrite truthy_of_nat. cbn [Nat.eqb negb].
  apply le_max_l; [discriminate |].
  apply spread_not_NaN, wholeOrInfinite_pagesPerFunction.
Qed.

(** C8. The first function is on page 1 whatever the other arguments are;
    and for a total function count [N] and a total page count [T] (or none),
    the estimate is at least 1 and does not decrease when the sequence index
    grows. *)
Theorem estimatePageNumber_first_and_monotone
  (N0 : number) (T0 : option number) (s1 s2 N : nat) (T : option nat) :
  s1 <= s2 ->
  estimatePageNumber (Fin 0) N0 T0 = Fin 1 /\
  le (Fin 1)
     (estimatePageNumber (of_nat s1) (of_nat N) (option_map of_nat T)) = true /\
  le (estimatePageNumber (of_nat s1) (of_nat N) (option_map of_nat T))
     (estimatePageNumber (of_nat s2) (of_nat N) (option_map of_nat T)) = true.
Proof.
  intros Hs. split; [reflexivity |].
  split; [apply estimatePageNumber_at_least_one |].
  destruct s1 as [| s1].
  - apply (estimatePageNumber_at_least_one s2 N T).
  - destruct s2 as [| s2]; [lia |].
    unfold estimatePageNumber. rewrite !strict_eq_of_nat_zero. cbn [Nat.eqb].
    assert (Hdef : le (add (Fin 1) (mul (of_nat (S s1)) (Fin 3)))
                      (add (Fin 1) (mul (of_nat (S s2)) (Fin 3))) = true).
    { apply spread_monotone; [| lia].
      right. exists 3%Z. split; [lia | reflexivity]. }
    destruct T as [[| t] |]; cbn [option_map]; try exact Hdef.
    rewrite truthy_of_nat. cbn [Nat.eqb negb].
    pose proof (wholeOrInfinite_pagesPerFunction t N) as Hk.
    apply max_mono; try discriminate.
    + apply spread_not_NaN, Hk.
    + apply spread_not_NaN, Hk.
    + apply spread_monotone; [exact Hk | lia].
Qed.

Lemma estimatePageNumber_first_and_monotone_witness :
  1 <= 2 /\
  estimatePageNumber (Fin 0) (of_nat 5) None = Fin 1 /\
  le (Fin 1) (estimatePageNumber (of_nat 1) (of_nat 5) (Some (of_nat 50))) = true /\
  le (estimatePageNumber (of_nat 1) (of_nat 5) (Some (of_nat 50)))
     (estimatePageNumber (of_nat 2) (of_nat 5) (Some (of_nat 50))) = true.
Proof.
  split; [lia |].
  apply (estimatePageNumber_first_and_monotone (of_nat 5) None 1 2 5 (Some 50)).
  lia.
Defined.

(** *** Reading back, removing and overwriting *)

Lemma ge_one_facts p :
  ge p (Fin 1) = true ->
  lt p (Fin 1) = false /\ truthy_number p = true /\ p <> NaN.
Proof.
  destruct p as [| | | q]; try discriminate.
  - intros _. repeat split; discriminate.
  - unfold ge, le, lt, truthy_number. intros H.
    split; [rewrite H; reflexivity |]. split; [| discriminate].
    apply Qle_bool_iff in H. apply negb_true_iff, not_true_is_false.
    intros Hz%Qeq_bool_iff. lra.
Qed.

(** A page number of at least 1 set for a non-empty identifier is what
    [getPageMapping] then returns for it; the answer for every other
    identifier is as before. *)
Theorem setPageMapping_then_get key p st :
  key <> ""%string -> ge p (Fin 1) = true ->
  getPageMapping key (setPageMapping (Str key) p st) = Num p /\
  forall other, other <> key ->
    getPageMapping other (setPageMapping (Str key) p st) =
    getPageMapping other st.
Proof.
  intros Hkey Hp. destruct (ge_one_facts p Hp) as (Hlt & Htruthy & _).
  rewrite (setPageMapping_accepts key p st Hlt Hkey).
  unfold getPageMapping. cbn [pageMappings]. split.
  - rewrite lookup_insert_eq, Htruthy. reflexivity.
  - intros other Hother. rewrite lookup_insert_ne by congruence. reflexivity.
Qed.

Lemma setPageMapping_then_get_witness :
  "{FUNC-1}"%string <> ""%string /\ ge (Fin 5) (Fin 1) = true /\
  getPageMapping "{FUNC-1}" (setPageMapping (Str "{FUNC-1}") (Fin 5) initial) =
  Num (Fin 5).
Proof.
  split; [discriminate |]. split; [reflexivity |].
  apply (setPageMapping_then_get "{FUNC-1}" (Fin 5) initial);
    [discriminate | reflexivity].
Defined.

(** After [removePageMapping] the identifier is not mapped and every other
    identifier is mapped as before; removing an identifier that is not
    mapped changes nothing. *)
Theorem removePageMapping_then_get key st :
  getPageMapping key (removePageMapping key st) = Null /\
  (forall other, other <> key ->
     getPageMapping other (removePageMapping key st) =
     getPageMapping other st) /\
  (pageMappings st !! key = None -> removePageMapping key st = st).
Proof.
  unfold getPageMapping, removePageMapping. cbn [pageMappings].
  split; [| split].
  - rewrite lookup_delete_eq. reflexivity.
  - intros other Hother. rewrite lookup_delete_ne by congruence. reflexivity.
  - intros Hnone. destruct st as [m c]. cbn [pageMappings console] in *.
    f_equal. apply delete_id. exact Hnone.
Qed.

(** Of two writes for one identifier the last accepted one counts: a second
    page number of at least 1 replaces whatever the first call did. *)
Theorem setPageMapping_overwrites key p1 p2 st :
  key <> ""%string -> ge p2 (Fin 1) = true ->
  pageMappings (setPageMapping (Str key) p2 (setPageMapping (Str key) p1 st)) =
  pageMappings (setPageMapping (Str key) p2 st).
Proof.
  intros Hkey Hp2. destruct (ge_one_facts p2 Hp2) as (Hlt & _ & _).
  rewrite !(setPageMapping_accepts key p2 _ Hlt Hkey). cbn [pageMappings].
  unfold setPageMapping at 1.
  destruct (lt p1 (Fin 1)); [reflexivity |].
  assert (Hn : nonEmptyString (Str key)) by (exists key; auto).
  apply nonEmptyString_check in Hn. rewrite Hn. cbn [pageMappings].
  apply insert_insert_eq.
Qed.

Lemma setPageMapping_overwrites_witness :
  "{FUNC-1}"%string <> ""%string /\ ge (Fin 10) (Fin 1) = true /\
  pageMappings
    (setPageMapping (Str "{FUNC-1}") (Fin 10)
       (setPageMapping (Str "{FUNC-1}") (Fin 5) initial)) =
  pageMappings (setPageMapping (Str "{FUNC-1}") (Fin 10) initial).
Proof.
  split; [discriminate |]. split; [reflexivity |].
  apply (setPageMapping_overwrites "{FUNC-1}" (Fin 5) (Fin 10) initial);
    [discriminate | reflexivity].
Defined.

(** *** What a bulk load accepts and what it logs *)

(** The entry gets past both guards of [setPageMapping]. *)
Definition accepted (m : PageMapping) : bool :=
  negb (lt (pageNumber m) (Fin 1)) &&
  match functionPUI m with
  | Str s => negb (String.eqb s "")
  | _ => false
  end.

Lemma setPageMapping_accepted m st :
  accepted m = true ->
  exists key, functionPUI m = Str key /\
    setPageMapping (functionPUI m) (pageNumber m) st =
    {| pageMappings := <[key := pageNumber m]> (pageMappings st);
       console := console st |}.
Proof.
  unfold accepted. intros [Hp Hk]%andb_true_iff.
  apply negb_true_iff in Hp.
  destruct (functionPUI m) as [| | | | key | |]; try discriminate.
  exists key. split; [reflexivity |].
  apply setPageMapping_accepts; [exact Hp |].
  apply negb_true_iff in Hk. intros ->. discriminate.
Qed.

Lemma setPageMapping_not_accepted m st :
  accepted m = false ->
  exists w, setPageMapping (functionPUI m) (pageNumber m) st = warn w st.
Proof.
  unfold accepted, setPageMapping. intros H.
  destruct (lt (pageNumber m) (Fin 1)); [eexists; reflexivity |].
  simpl in H.
  destruct (functionPUI m) as [| | b | n | key | |]; simpl;
    try (eexists; reflexivity).
  - destruct b; eexists; reflexivity.
  - destruct (truthy_number n); eexists; reflexivity.
  - rewrite H. eexists. reflexivity.
Qed.

(** The identifiers of the accepted entries. *)
Definition acceptedKeys (ms : list PageMapping) : gset string :=
  list_to_set
    (flat_map (fun m => match functionPUI m with
                        | Str key => if accepted m then [key] else []
                        | _ => []
                        end) ms).

Lemma fold_setPageMapping_dom ms st :
  dom (pageMappings
         (fold_left
            (fun acc m => setPageMapping (functionPUI m) (pageNumber m) acc)
            ms st)) =
  dom (pageMappings st) ∪ acceptedKeys ms /\
  length (console
            (fold_left
               (fun acc m => setPageMapping (functionPUI m) (pageNumber m) acc)
               ms st)) =
  length (console st) +
  length (List.filter (fun m => negb (accepted m)) ms).
Proof.
  revert st. induction ms as [| m ms IH]; intros st.
  - unfold acceptedKeys. simpl. split; [set_solver | lia].
  - cbn [fold_left]. destruct (IH (setPageMapping (functionPUI m) (pageNumber m) st))
      as [Hdom Hlen].
    rewrite Hdom, Hlen. clear IH Hdom Hlen.
    unfold acceptedKeys. cbn [flat_map List.filter].
    destruct (accepted m) eqn:Hacc.
    + destruct (setPageMapping_accepted m st Hacc) as (key & Hkey & ->).
      rewrite Hkey. cbn [pageMappings console negb].
      rewrite dom_insert_L, list_to_set_app_L. split; [set_solver | lia].
    + destruct (setPageMapping_not_accepted m st Hacc) as (w & ->).
      cbn [pageMappings console warn negb length].
      rewrite length_app. cbn [length].
      split; [| lia].
      destruct (functionPUI m); reflexivity.
Qed.

(** After [loadPageMappings] the mapped identifiers are exactly those of the
    entries that get past the two guards, whatever the store held before,
    and the console has one more warning for each of the other entries. *)
Theorem loadPageMappings_accepts_or_warns ms st :
  dom (pageMappings (loadPageMappings ms st)) = acceptedKeys ms /\
  length (console (loadPageMappings ms st)) =
  length (console st) + length (List.filter (fun m => negb (accepted m)) ms).
Proof.
  unfold loadPageMappings.
  destruct (fold_setPageMapping_dom ms (clearAllPageMappings st)) as [Hdom Hlen].
  rewrite Hdom, Hlen. cbn [clearAllPageMappings pageMappings console].
  split; [set_solver | reflexivity].
Qed.

(** *** The estimate as a page of the document *)

Lemma le_lt_false a b : le a b = true -> lt b a = false.
Proof. destruct a, b; intros; number_cases. Qed.

Lemma max_le a b c :
  a <> NaN -> b <> NaN -> le a c = true -> le b c = true ->
  le (max a b) c = true.
Proof.
  intros Ha Hb Hac Hbc. rewrite max_cases by assumption.
  destruct (lt a b); assumption.
Qed.

(** With a known page count of at least 1, the estimate for each of the [N]
    functions (sequence 0 to [N - 1]) is a page of the document: it is at
    most the page count. *)
Theorem estimatePageNumber_within_document (s N T : nat) :
  1 <= T -> s < N ->
  le (estimatePageNumber (of_nat s) (of_nat N) (Some (of_nat T)))
     (of_nat T) = true.
Proof.
  intros HT Hs. unfold estimatePageNumber. rewrite strict_eq_of_nat_zero.
  assert (H1T : le (Fin 1) (of_nat T) = true).
  { unfold of_nat, of_Z. apply le_Fin. change 1%Q with (inject_Z 1).
    rewrite <- Zle_Qle. lia. }
  destruct s as [| s]; [exact H1T |]. cbn [Nat.eqb].
  rewrite truthy_of_nat. destruct T as [| t]; [lia |]. cbn [Nat.eqb negb].
  rewrite pagesPerFunction_counts. destruct N as [| n]; [lia |].
  apply max_le; try discriminate; [exact H1T |].
  unfold of_nat, of_Z. cbn [mul add]. apply le_Fin.
  rewrite <- inject_Z_mult. rewrite <- (inject_Z_plus 1). rewrite <- Zle_Qle.
  set (q := (Z.of_nat (S t) / Z.of_nat (S n))%Z).
  assert (Hq : (0 <= q)%Z) by (apply Z.div_pos; lia).
  assert (Hmul : (Z.of_nat (S n) * q <= Z.of_nat (S t))%Z)
    by (apply Z.mul_div_le; lia).
  clearbody q.
  assert (Hstep : (Z.of_nat (S s) * q + q <= Z.of_nat (S n) * q)%Z) by nia.
  destruct (Z.eq_dec q 0%Z) as [-> | Hnz]; lia.
Qed.

Lemma estimatePageNumber_within_document_witness :
  1 <= 50 /\ 4 < 5 /\
  le (estimatePageNumber (of_nat 4) (of_nat 5) (Some (of_nat 50)))
     (of_nat 50) = true.
Proof.
  split; [lia |]. split; [lia |].
  apply (estimatePageNumber_within_document 4 5 50); lia.
Defined.

(** An estimate is never refused by [setPageMapping]: for a non-empty
    identifier it is stored as it is. *)
Theorem setPageMapping_stores_estimate key (s N : nat) (T : option nat) st :
  key <> ""%string ->
  let page :=
    estimatePageNumber (of_nat s) (of_nat N) (option_map of_nat T) in
  pageMappings (setPageMapping (Str key) page st) !! key = Some page /\
  console (setPageMapping (Str key) page st) = console st.
Proof.
  intros Hkey page.
  pose proof (estimatePageNumber_at_least_one s N T) as Hge.
  apply le_lt_false in Hge. fold page in Hge.
  rewrite (setPageMapping_accepts key page st Hge Hkey).
  cbn [pageMappings console]. split; [apply lookup_insert_eq | reflexivity].
Qed.

Lemma setPageMapping_stores_estimate_witness :
  "{FUNC-3}"%string <> ""%string /\
  pageMappings
    (setPageMapping (Str "{FUNC-3}")
       (estimatePageNumber (of_nat 2) (of_nat 5) None) initial)
    !! "{FUNC-3}"%string =
  Some (estimatePageNumber (of_nat 2) (of_nat 5) None).
Proof.
  split; [discriminate |].
  apply (setPageMapping_stores_estimate "{FUNC-3}" 2 5 None initial).
  discriminate.
Defined.

(** *** Persistence

    [localStorage] is a map from keys to strings.  [JSON.stringify] and
    [JSON.parse] belong to the platform and are parameters; [JSON.parse]
    returns the mappings or throws a SyntaxError; a stored text that parses
    to another value than an array of mappings, and the storage quota, are
    not modelled. *)

Section Persistence.

Variable stringify : list PageMapping -> string.
Variable parse : string -> outcome (list PageMapping).

(** [`pdf_page_mappings:${documentPath}`] *)
Definition storageKey (documentPath : string) : string :=
  ("pdf_page_mappings:" ++ documentPath)%string.

Definition persistMappings (documentPath : string)
  (mappings : list PageMapping) (localStorage : gmap string string)
  : gmap string string :=
  let key := storageKey documentPath in
  <[key := stringify mappings]> localStorage.

(** The result, and whether [console.error] was called. *)
Definition loadPersistedMappings (documentPath : string)
  (localStorage : gmap string string) : list PageMapping * bool :=
  let key := storageKey documentPath in
  match localStorage !! key with
  | None => ([], false)
  | Some data =>
      if String.eqb data "" then ([], false)
      else match parse data with
           | Return mappings => (mappings, false)
           | Throw => ([], true)
           end
  end.

Definition clearPersistedMappings (documentPath : string)
  (localStorage : gmap string string) : gmap string string :=
  let key := storageKey documentPath in
  delete key localStorage.

Lemma storageKey_inj path1 path2 :
  storageKey path1 = storageKey path2 -> path1 = path2.
Proof.
  unfold storageKey. generalize "pdf_page_mappings:"%string.
  intros prefix. induction prefix as [| c prefix IH]; simpl.
  - trivial.
  - intros [= H]. apply IH. exact H.
Qed.

(** The mappings of one document are kept apart from those of every other:
    persisting or clearing under one path does not change what is loaded
    under another path. *)
Theorem persisted_documents_are_separate path1 path2 mappings localStorage :
  path1 <> path2 ->
  loadPersistedMappings path2 (persistMappings path1 mappings localStorage) =
  loadPersistedMappings path2 localStorage /\
  loadPersistedMappings path2 (clearPersistedMappings path1 localStorage) =
  loadPersistedMappings path2 localStorage.
Proof.
  intros Hne.
  assert (Hkey : storageKey path1 <> storageKey path2)
    by (intros H%storageKey_inj; contradiction).
  unfold loadPersistedMappings, persistMappings, clearPersistedMappings.
  cbv zeta.
  rewrite lookup_insert_ne by exact Hkey.
  rewrite lookup_delete_ne by exact Hkey. split; reflexivity.
Qed.

(** What was persisted under a path is what is loaded under it, as far as
    [JSON.parse] gives back what [JSON.stringify] wrote; after clearing, and
    when the stored text does not parse, the empty list is loaded. *)
Theorem persist_then_load path mappings localStorage :
  stringify mappings <> ""%string ->
  parse (stringify mappings) = Return mappings ->
  loadPersistedMappings path (persistMappings path mappings localStorage) =
  (mappings, false) /\
  loadPersistedMappings path
    (clearPersistedMappings path
       (persistMappings path mappings localStorage)) = ([], false) /\
  (forall data, parse data = Throw ->
     fst (loadPersistedMappings path (<[storageKey path := data]> localStorage))
     = []).
Proof.
  intros Hne Hparse.
  unfold loadPersistedMappings, persistMappings, clearPersistedMappings.
  cbv zeta. split; [| split].
  - rewrite lookup_insert_eq.
    destruct (String.eqb_spec (stringify mappings) ""); [contradiction |].
    rewrite Hparse. reflexivity.
  - rewrite lookup_delete_eq. reflexivity.
  - intros data Hthrow. rewrite lookup_insert_eq.
    destruct (String.eqb data ""); [reflexivity |].
    rewrite Hthrow. reflexivity.
Qed.

End Persistence.

(** *** A reader and a writer for the examples

    The JSON text of a list of mappings whose identifiers are strings
    without quotes or backslashes and whose page numbers are whole and not
    negative, as [JSON.stringify] writes it and [JSON.parse] reads it.  What
    [JSON.stringify] writes for other mappings is not needed below; here it
    is [null]. *)

Definition quote : ascii := "034"%char.

(** The text of an object up to its identifier: the brace, the quoted key
    functionPUI, the colon and the opening quote. *)
Definition beforeIdentifier : list ascii :=
  "{"%char :: quote :: list_ascii_of_string "functionPUI" ++
  [quote; ":"%char; quote].

(** The text between the identifier and the page number: the closing quote,
    the comma, the quoted key pageNumber and the colon. *)
Definition beforePage : list ascii :=
  quote :: ","%char :: quote :: list_ascii_of_string "pageNumber" ++
  [quote; ":"%char].

Definition wholePage (p : number) : option N :=
  match p with
  | Fin q =>
      if Qeq_bool q (inject_Z (Qfloor q)) && (0 <=? Qfloor q)%Z
      then Some (Z.to_N (Qfloor q))
      else None
  | _ => None
  end.

Definition writeMapping (m : PageMapping) : list ascii :=
  match functionPUI m, wholePage (pageNumber m) with
  | Str key, Some page =>
      beforeIdentifier ++ list_ascii_of_string key ++ beforePage ++
      list_ascii_of_string (NilZero.string_of_uint (N.to_uint page)) ++
      ["}"%char]
  | _, _ => list_ascii_of_string "null"
  end.

Fixpoint writeList (mappings : list PageMapping) : list ascii :=
  match mappings with
  | [] => []
  | [m] => writeMapping m
  | m :: rest => writeMapping m ++ ","%char :: writeList rest
  end.

Definition writeMappings (mappings : list PageMapping) : string :=
  string_of_list_ascii ("["%char :: writeList mappings ++ ["]"%char]).

(** [s] without the prefix [prefix]. *)
Fixpoint after (prefix s : list ascii) : option (list ascii) :=
  match prefix, s with
  | [], _ => Some s
  | p :: prefix', c :: rest =>
      if Ascii.eqb p c then after prefix' rest else None
  | _ :: _, [] => None
  end.

(** The characters of [s] before the first one that [stop] accepts, and the
    rest of [s] from that one on. *)
Fixpoint upTo (stop : ascii -> bool) (s : list ascii)
  : list ascii * list ascii :=
  match s with
  | [] => ([], [])
  | c :: rest =>
      if stop c then ([], s)
      else let (before, from) := upTo stop rest in (c :: before, from)
  end.

Definition isDigit (c : ascii) : bool :=
  let n := nat_of_ascii c in Nat.leb 48 n && Nat.leb n 57.

Definition readMapping (s : list ascii) : option (PageMapping * list ascii) :=
  match after beforeIdentifier s with
  | None => None
  | Some s1 =>
      let (key, s2) := upTo (Ascii.eqb quote) s1 in
      match after beforePage s2 with
      | None => None
      | Some s3 =>
          let (digits, s4) := upTo (fun c => negb (isDigit c)) s3 in
          match digits, NilZero.uint_of_string (string_of_list_ascii digits),
                s4 with
          | _ :: _, Some page, "}"%char :: s5 =>
              Some ({| functionPUI := Str (string_of_list_ascii key);
                       pageNumber := of_Z (Z.of_N (N.of_uint page)) |}, s5)
          | _, _, _ => None
          end
      end
  end.

Fixpoint readList (fuel : nat) (s : list ascii) : option (list PageMapping) :=
  match fuel with
  | O => None
  | S fuel' =>
      match readMapping s with
      | Some (m, ["]"%char]) => Some [m]
      | Some (m, ","%char :: rest) =>
          match readList fuel' rest with
          | Some mappings => Some (m :: mappings)
          | None => None
          end
      | _ => None
      end
  end.

Definition readMappings (data : string) : outcome (list PageMapping) :=
  match list_ascii_of_string data with
  | ["["%char; "]"%char] => Return []
  | "["%char :: rest =>
      match readList (length rest) rest with
      | Some mappings => Return mappings
      | None => Throw
      end
  | _ => Throw
  end.

Definition page5 : list PageMapping :=
  [ {| functionPUI := Str "{FUNC-1}"; pageNumber := of_nat 5 |} ].

Definition pages12 : list PageMapping :=
  [ {| functionPUI := Str "{FUNC-2}"; pageNumber := of_nat 12 |};
    {| functionPUI := Str "{FUNC-3}"; pageNumber := of_nat 40 |} ].

Example writeMappings_page5 :
  list_ascii_of_string (writeMappings page5) =
  "["%char :: beforeIdentifier ++ list_ascii_of_string "{FUNC-1}" ++
  beforePage ++ list_ascii_of_string "5}]".
Proof. reflexivity. Qed.

Example readMappings_examples :
  readMappings (writeMappings pages12) = Return pages12 /\
  readMappings (writeMappings []) = Return [] /\
  readMappings "not JSON" = Throw /\
  readMappings (writeMappings page5 ++ "]") = Throw.
Proof. repeat split; reflexivity. Qed.

(** With the mappings of a second document in the storage, persisting and
    clearing under the first path leave them as they are; under the second
    path itself they would be replaced and removed. *)
Lemma persisted_documents_are_separate_witness :
  let stored := persistMappings writeMappings "doc2.msf" pages12 ∅ in
  "doc1.msf"%string <> "doc2.msf"%string /\
  (loadPersistedMappings readMappings "doc2.msf"
     (persistMappings writeMappings "doc1.msf" page5 stored) =
   loadPersistedMappings readMappings "doc2.msf" stored /\
   loadPersistedMappings readMappings "doc2.msf"
     (clearPersistedMappings "doc1.msf" stored) =
   loadPersistedMappings readMappings "doc2.msf" stored) /\
  loadPersistedMappings readMappings "doc2.msf" stored = (pages12, false) /\
  loadPersistedMappings readMappings "doc2.msf"
    (persistMappings writeMappings "doc2.msf" page5 stored) = (page5, false) /\
  loadPersistedMappings readMappings "doc2.msf"
    (clearPersistedMappings "doc2.msf" stored) = ([], false).
Proof.
  intros stored.
  split; [discriminate |]. split; [| repeat split; reflexivity].
  apply (persisted_documents_are_separate writeMappings readMappings
           "doc1.msf" "doc2.msf" page5 stored).
  discriminate.
Defined.

(** Two mappings persisted in an empty storage are loaded again; nothing is
    loaded before, after clearing, or from a text that does not parse. *)
Lemma persist_then_load_witness :
  let path := "test-document.msf"%string in
  writeMappings pages12 <> ""%string /\
  readMappings (writeMappings pages12) = Return pages12 /\
  (loadPersistedMappings readMappings path
     (persistMappings writeMappings path pages12 ∅) = (pages12, false) /\
   loadPersistedMappings readMappings path
     (clearPersistedMappings path
        (persistMappings writeMappings path pages12 ∅)) = ([], false) /\
   (forall data, readMappings data = Throw ->
      fst (loadPersistedMappings readMappings path
             (<[storageKey path := data]> ∅)) = [])) /\
  loadPersistedMappings readMappings path ∅ = ([], false) /\
  loadPersistedMappings readMappings path
    (<[storageKey path := "not JSON"%string]> ∅) = ([], true).
Proof.
  intros path.
  assert (Hwritten : writeMappings pages12 <> ""%string) by discriminate.
  assert (Hread : readMappings (writeMappings pages12) = Return pages12)
    by reflexivity.
  split; [exact Hwritten |]. split; [exact Hread |].
  split; [| split; reflexivity].
  exact (persist_then_load writeMappings readMappings path pages12 ∅
           Hwritten Hread).
Defined.

End PdfPageMapper.

(** ** uuidGenerator.ts *)

Module UuidGenerator.

(** *** The platform's [crypto.randomUUID()]

    The browser function is not code of this repository.  It is modelled as
    the Web Cryptography specification defines it: sixteen random bytes, the
    version and variant bits forced, printed as lower-case hexadecimal in
    groups of 8-4-4-4-12.  The random bytes are an argument; a missing byte
    reads as 0. *)

Definition hexDigit (n : N) : ascii :=
  nth (N.to_nat (n mod 16)) (list_ascii_of_string "0123456789abcdef") "0"%char.

Definition hexByte (b : N) : list ascii :=
  [hexDigit (b / 16); hexDigit b].

Definition randomByte (rnd : list N) (i : nat) : N := nth i rnd 0%N mod 256.

Definition uuidBytes (rnd : list N) : list N :=
  map (fun i =>
         let b := randomByte rnd i in
         if Nat.eqb i 6 then N.lor (N.land b 15) 64
         else if Nat.eqb i 8 then N.lor (N.land b 63) 128
         else b)
      (seq 0 16).

Definition hexGroup (bytes : list N) (from count : nat) : list ascii :=
  concat (map hexByte (firstn count (skipn from bytes))).

Definition randomUUID (rnd : list N) : string :=
  let bytes := uuidBytes rnd in
  string_of_list_ascii
    (hexGroup bytes 0 4 ++ ["-"%char] ++ hexGroup bytes 4 2 ++ ["-"%char] ++
     hexGroup bytes 6 2 ++ ["-"%char] ++ hexGroup bytes 8 2 ++ ["-"%char] ++
     hexGroup bytes 10 6).

(** [String.prototype.toUpperCase] on the ASCII letters.  Characters outside
    ASCII are left as they are; [randomUUID] produces none. *)
Definition upperChar (c : ascii) : ascii :=
  let n := nat_of_ascii c in
  if Nat.leb 97 n && Nat.leb n 122 then ascii_of_nat (n - 32) else c.

Definition toUpperCase (s : string) : string :=
  string_of_list_ascii (map upperChar (list_ascii_of_string s)).

(** *** The repository's functions *)

Definition generateMOXUUID (rnd : list N) : string :=
  let uuid := toUpperCase (randomUUID rnd) in
  ("{" ++ uuid ++ "}")%string.

(** The regular expressions of this module are sequences of single
    characters and of character classes repeated a fixed number of times. *)
Inductive atom :=
| Char (c : ascii)
| Class (member : ascii -> bool) (count : nat).

Fixpoint matchClass (member : ascii -> bool) (count : nat) (s : list ascii)
  : option (list ascii) :=
  match count with
  | O => Some s
  | S n =>
      match s with
      | c :: rest => if member c then matchClass member n rest else None
      | [] => None
      end
  end.

Definition matchAtom (a : atom) (s : list ascii) : option (list ascii) :=
  match a with
  | Char c =>
      match s with
      | c' :: rest => if Ascii.eqb c c' then Some rest else None
      | [] => None
      end
  | Class member count => matchClass member count s
  end.

(** Matches the atoms one after the other from the start of [s] and returns
    what is left of [s]. *)
Fixpoint matchAtoms (pattern : list atom) (s : list ascii)
  : option (list ascii) :=
  match pattern with
  | [] => Some s
  | a :: pattern' =>
      match matchAtom a s with
      | Some rest => matchAtoms pattern' rest
      | None => None
      end
  end.

(** [/^pattern$/.test(s)]: the whole of [s] is matched. *)
Definition testAnchored (pattern : list atom) (s : string) : bool :=
  match matchAtoms pattern (list_ascii_of_string s) with
  | Some [] => true
  | _ => false
  end.

(** [0-9A-F] *)
Definition upperHex (c : ascii) : bool :=
  let n := nat_of_ascii c in
  (Nat.leb 48 n && Nat.leb n 57) || (Nat.leb 65 n && Nat.leb n 70).

Definition isValidMOXUUID (uuid : string) : bool :=
  let pattern :=
    [Char "{"; Class upperHex 8; Char "-"; Class upperHex 4; Char "-";
     Class upperHex 4; Char "-"; Class upperHex 4; Char "-";
     Class upperHex 12; Char "}"] in
  testAnchored pattern uuid.

Definition generateNullUUID : string := "{00000000-0000-0000-0000-000000000000}".

(** *** The identifier grammar *)

(** A group of [n] upper-case hexadecimal digits. *)
Definition hexGroupOf (n : nat) (g : list ascii) : Prop :=
  length g = n /\ Forall (fun c => upperHex c = true) g.

(** [{XXXXXXXX-XXXX-XXXX-XXXX-XXXXXXXXXXXX}] *)
Definition MOXGrammar (s : string) : Prop :=
  exists g1 g2 g3 g4 g5,
    hexGroupOf 8 g1 /\ hexGroupOf 4 g2 /\ hexGroupOf 4 g3 /\
    hexGroupOf 4 g4 /\ hexGroupOf 12 g5 /\
    list_ascii_of_string s =
    ["{"%char] ++ g1 ++ ["-"%char] ++ g2 ++ ["-"%char] ++ g3 ++ ["-"%char] ++
    g4 ++ ["-"%char] ++ g5 ++ ["}"%char].

Definition lowerLetter (c : ascii) : bool :=
  let n := nat_of_ascii c in Nat.leb 97 n && Nat.leb n 122.

(** *** Proofs *)

Lemma matchClass_spec member n s rest :
  matchClass member n s = Some rest <->
  exists g, s = g ++ rest /\ length g = n /\
            Forall (fun c => member c = true) g.
Proof.
  revert s. induction n as [| n IH]; intros s; simpl.
  - split.
    + intros [= ->]. exists []. repeat split. constructor.
    + intros (g & -> & Hlen & _). destruct g; [reflexivity | discriminate].
  - destruct s as [| c s].
    + split; [discriminate |].
      intros (g & Hs & Hlen & _). destruct g; discriminate.
    + destruct (member c) eqn:Hc.
      * rewrite IH. split.
        -- intros (g & -> & Hlen & Hall). exists (c :: g).
           repeat split; [simpl; congruence | constructor; assumption].
        -- intros (g & Hs & Hlen & Hall). destruct g as [| c' g]; [discriminate |].
           injection Hs as <- ->. injection Hlen as Hlen.
           inversion Hall; subst. exists g. repeat split; assumption.
      * split; [discriminate |].
        intros (g & Hs & Hlen & Hall). destruct g as [| c' g]; [discriminate |].
        injection Hs as <- ->. inversion Hall; subst. congruence.
Qed.

Lemma matchChar_spec c s rest :
  matchAtom (Char c) s = Some rest <-> s = c :: rest.
Proof.
  simpl. destruct s as [| c' s].
  - split; discriminate.
  - destruct (Ascii.eqb_spec c c') as [-> | Hne].
    + split; [intros [= ->]; reflexivity | intros [= ->]; reflexivity].
    + split; [discriminate | intros [= ? ?]; congruence].
Qed.

Lemma matchAtoms_cons a pattern s rest :
  matchAtoms (a :: pattern) s = Some rest <->
  exists mid, matchAtom a s = Some mid /\ matchAtoms pattern mid = Some rest.
Proof.
  simpl. destruct (matchAtom a s) as [mid |].
  - split; [intros H; exists mid; auto | intros (m & [= ->] & H); exact H].
  - split; [discriminate | intros (m & H & _); discriminate].
Qed.

Lemma isValidMOXUUID_grammar s : isValidMOXUUID s = true <-> MOXGrammar s.
Proof.
  unfold isValidMOXUUID, testAnchored, MOXGrammar, hexGroupOf.
  set (l := list_ascii_of_string s). clearbody l.
  split.
  - destruct (matchAtoms _ l) as [[| ? ?] |] eqn:Hm; try discriminate.
    intros _.
    apply matchAtoms_cons in Hm as (? & ->%matchChar_spec & Hm).
    apply matchAtoms_cons in Hm as (? & (g1 & -> & G1)%matchClass_spec & Hm).
    apply matchAtoms_cons in Hm as (? & ->%matchChar_spec & Hm).
    apply matchAtoms_cons in Hm as (? & (g2 & -> & G2)%matchClass_spec & Hm).
    apply matchAtoms_cons in Hm as (? & ->%matchChar_spec & Hm).
    apply matchAtoms_cons in Hm as (? & (g3 & -> & G3)%matchClass_spec & Hm).
    apply matchAtoms_cons in Hm as (? & ->%matchChar_spec & Hm).
    apply matchAtoms_cons in Hm as (? & (g4 & -> & G4)%matchClass_spec & Hm).
    apply matchAtoms_cons in Hm as (? & ->%matchChar_spec & Hm).
    apply matchAtoms_cons in Hm as (? & (g5 & -> & G5)%matchClass_spec & Hm).
    apply matchAtoms_cons in Hm as (? & ->%matchChar_spec & Hm).
    simpl in Hm. injection Hm as ->.
    exists g1, g2, g3, g4, g5. repeat (split; [assumption |]). reflexivity.
  - intros (g1 & g2 & g3 & g4 & g5 & [L1 F1] & [L2 F2] & [L3 F3] & [L4 F4] &
            [L5 F5] & ->).
    assert (Hc : forall n g rest, length g = n ->
               Forall (fun c => upperHex c = true) g ->
               matchClass upperHex n (g ++ rest) = Some rest).
    { intros n g rest Hl Hf. apply matchClass_spec. exists g. auto. }
    cbn [matchAtoms matchAtom app]. rewrite Ascii.eqb_refl.
    rewrite (Hc 8 g1) by assumption. cbn [app]. rewrite Ascii.eqb_refl.
    rewrite (Hc 4 g2) by assumption. cbn [app]. rewrite Ascii.eqb_refl.
    rewrite (Hc 4 g3) by assumption. cbn [app]. rewrite Ascii.eqb_refl.
    rewrite (Hc 4 g4) by assumption. cbn [app]. rewrite Ascii.eqb_refl.
    rewrite (Hc 12 g5) by assumption. cbn [app]. rewrite Ascii.eqb_refl.
    reflexivity.
Qed.

Lemma upperHex_upperChar_hexDigit n : upperHex (upperChar (hexDigit n)) = true.
Proof.
  unfold hexDigit.
  assert (Hlt : N.to_nat (n mod 16) < 16).
  { pose proof (N.mod_upper_bound n 16). lia. }
  set (k := N.to_nat (n mod 16)) in *. clearbody k.
  do 16 (destruct k as [| k]; [reflexivity |]). lia.
Qed.

Lemma list_ascii_of_string_append s1 s2 :
  list_ascii_of_string (s1 ++ s2)%string =
  list_ascii_of_string s1 ++ list_ascii_of_string s2.
Proof. induction s1 as [| c s1 IH]; simpl; [| rewrite IH]; reflexivity. Qed.

Lemma hexGroup_upper rnd from count :
  Forall (fun c => upperHex c = true)
    (map upperChar (hexGroup (uuidBytes rnd) from count)).
Proof.
  unfold hexGroup. rewrite Forall_map.
  apply Forall_concat, Forall_map, Forall_forall.
  intros b _. repeat constructor; apply upperHex_upperChar_hexDigit.
Qed.

Lemma string_of_list_ascii_append l1 l2 :
  string_of_list_ascii (l1 ++ l2) =
  (string_of_list_ascii l1 ++ string_of_list_ascii l2)%string.
Proof. induction l1 as [| c l1 IH]; simpl; [| rewrite IH]; reflexivity. Qed.

Lemma string_length_list s :
  String.length s = length (list_ascii_of_string s).
Proof. induction s as [| c s IH]; simpl; [| rewrite IH]; reflexivity. Qed.

Lemma generateMOXUUID_grammar rnd : MOXGrammar (generateMOXUUID rnd).
Proof.
  unfold MOXGrammar, hexGroupOf, generateMOXUUID, toUpperCase, randomUUID.
  rewrite !list_ascii_of_string_append, !list_ascii_of_string_of_list_ascii.
  set (bytes := uuidBytes rnd).
  exists (map upperChar (hexGroup bytes 0 4)),
         (map upperChar (hexGroup bytes 4 2)),
         (map upperChar (hexGroup bytes 6 2)),
         (map upperChar (hexGroup bytes 8 2)),
         (map upperChar (hexGroup bytes 10 6)).
  repeat (split; [split; [reflexivity | apply hexGroup_upper] |]).
  rewrite !map_app. reflexivity.
Qed.

Lemma upperHex_not_lower c : upperHex c = true -> lowerLetter c = false.
Proof.
  unfold upperHex, lowerLetter. set (n := nat_of_ascii c). clearbody n.
  intros H. apply orb_true_iff in H.
  apply andb_false_iff.
  destruct (Nat.leb_spec 97 n); [| left; reflexivity].
  right. apply Nat.leb_gt.
  destruct H as [H | H]; apply andb_true_iff in H as [_ H];
    apply Nat.leb_le in H; lia.
Qed.

(** The cases of uuidGenerator.test.ts. *)
Example isValidMOXUUID_accepts :
  isValidMOXUUID "{909A9194-0F64-457A-B5C4-04BA19963EB1}" = true /\
  isValidMOXUUID generateNullUUID = true.
Proof. split; reflexivity. Qed.

Example isValidMOXUUID_rejects :
  isValidMOXUUID "909A9194-0F64-457A-B5C4-04BA19963EB1" = false /\
  isValidMOXUUID "{909a9194-0f64-457a-b5c4-04ba19963eb1}" = false /\
  isValidMOXUUID "{909A9194}" = false /\
  isValidMOXUUID "" = false /\
  isValidMOXUUID "not-a-uuid" = false.
Proof. repeat split; reflexivity. Qed.

Example generateMOXUUID_sample :
  generateMOXUUID [144; 154; 145; 148; 15; 100; 69; 122;
                   181; 196; 4; 186; 25; 150; 62; 177]%N =
  "{909A9194-0F64-457A-B5C4-04BA19963EB1}".
Proof. reflexivity. Qed.

(** C4. Every identifier that [generateMOXUUID] returns is accepted by
    [isValidMOXUUID]; and [isValidMOXUUID] accepts exactly the strings of
    the grammar, so that a string without the braces, with a lower-case
    letter, or of another length than the five groups give is rejected. *)
Theorem generateMOXUUID_valid_and_grammar_exact :
  (forall rnd, isValidMOXUUID (generateMOXUUID rnd) = true) /\
  (forall s, isValidMOXUUID s = true <-> MOXGrammar s) /\
  (forall s, isValidMOXUUID s = true ->
     String.length s = 38 /\
     (exists body, s = String "{" body) /\
     (exists body, s = (body ++ "}")%string) /\
     Forall (fun c => lowerLetter c = false) (list_ascii_of_string s)).
Proof.
  split; [| split].
  - intros rnd. apply isValidMOXUUID_grammar, generateMOXUUID_grammar.
  - apply isValidMOXUUID_grammar.
  - intros s (g1 & g2 & g3 & g4 & g5 & [L1 F1] & [L2 F2] & [L3 F3] &
              [L4 F4] & [L5 F5] & Hs)%isValidMOXUUID_grammar.
    split; [| split; [| split]].
    + rewrite string_length_list, Hs. rewrite !length_app. simpl. lia.
    + rewrite <- (string_of_list_ascii_of_string s), Hs.
      eexists. reflexivity.
    + rewrite <- (string_of_list_ascii_of_string s), Hs.
      exists (string_of_list_ascii
                (["{"%char] ++ g1 ++ ["-"%char] ++ g2 ++ ["-"%char] ++ g3 ++
                 ["-"%char] ++ g4 ++ ["-"%char] ++ g5)).
      rewrite <- (string_of_list_ascii_append _ ["}"%char]).
      rewrite <- !app_assoc. reflexivity.
    + rewrite Hs.
      pose proof upperHex_not_lower as Hnl.
      repeat (apply Forall_app; split);
        try (repeat constructor; reflexivity);
        eapply Forall_impl; try eassumption; exact Hnl.
Qed.

(** *** Reading the random bytes back from an identifier *)

(** The value of an upper-case hexadecimal digit. *)
Definition hexValue (c : ascii) : N :=
  let n := N.of_nat (nat_of_ascii c) in
  if (n <=? 57)%N then (n - 48)%N else (n - 55)%N.

Fixpoint bytesOfDigits (digits : list ascii) : list N :=
  match digits with
  | high :: low :: rest =>
      (16 * hexValue high + hexValue low)%N :: bytesOfDigits rest
  | _ => []
  end.

(** The bytes that the hexadecimal digits of an identifier spell, the
    braces and hyphens left out. *)
Definition bytesOf (uuid : string) : list N :=
  bytesOfDigits (List.filter upperHex (list_ascii_of_string uuid)).

Lemma hexValue_upperChar_hexDigit n :
  hexValue (upperChar (hexDigit n)) = (n mod 16)%N.
Proof.
  unfold hexDigit.
  assert (Hlt : N.to_nat (n mod 16) < 16).
  { pose proof (N.mod_upper_bound n 16). lia. }
  rewrite <- (N2Nat.id (n mod 16)) at 2.
  set (k := N.to_nat (n mod 16)) in *. clearbody k.
  do 16 (destruct k as [| k]; [reflexivity |]). lia.
Qed.

Lemma filter_upperHex_digits bytes :
  List.filter upperHex (map upperChar (concat (map hexByte bytes))) =
  map upperChar (concat (map hexByte bytes)).
Proof.
  induction bytes as [| b bytes IH]; [reflexivity |].
  cbn [map concat hexByte app List.filter].
  rewrite !upperHex_upperChar_hexDigit, IH. reflexivity.
Qed.

Lemma bytesOfDigits_digits bytes :
  Forall (fun b => (b < 256)%N) bytes ->
  bytesOfDigits (map upperChar (concat (map hexByte bytes))) = bytes.
Proof.
  induction 1 as [| b bytes Hb _ IH]; [reflexivity |].
  cbn [map concat hexByte app bytesOfDigits].
  rewrite !hexValue_upperChar_hexDigit, IH. f_equal.
  rewrite (N.mod_small (b / 16) 16).
  - pose proof (N.div_mod b 16 ltac:(lia)). lia.
  - apply N.Div0.div_lt_upper_bound. lia.
Qed.

Lemma uuidBytes_length rnd : length (uuidBytes rnd) = 16.
Proof. unfold uuidBytes. rewrite length_map, length_seq. reflexivity. Qed.

Lemma land_ones_lt b n : (N.land b (N.ones n) < 2 ^ n)%N.
Proof. rewrite N.land_ones. apply N.mod_upper_bound, N.pow_nonzero. lia. Qed.

Lemma version_byte b :
  (64 <= N.lor (N.land b 15) 64 < 80)%N.
Proof.
  pose proof (land_ones_lt b 4) as H. change (N.ones 4) with 15%N in H.
  change (2 ^ 4)%N with 16%N in H.
  set (k := N.land b 15) in *. clearbody k.
  assert (Hk : N.to_nat k < 16) by lia.
  rewrite <- (N2Nat.id k). set (m := N.to_nat k) in *. clearbody m.
  do 16 (destruct m as [| m]; [cbv; split; [discriminate | reflexivity] |]).
  lia.
Qed.

Lemma variant_byte b :
  (128 <= N.lor (N.land b 63) 128 < 192)%N.
Proof.
  pose proof (land_ones_lt b 6) as H. change (N.ones 6) with 63%N in H.
  change (2 ^ 6)%N with 64%N in H.
  set (k := N.land b 63) in *. clearbody k.
  assert (Hk : N.to_nat k < 64) by lia.
  rewrite <- (N2Nat.id k). set (m := N.to_nat k) in *. clearbody m.
  do 64 (destruct m as [| m]; [cbv; split; [discriminate | reflexivity] |]).
  lia.
Qed.

Lemma uuidBytes_bytes rnd : Forall (fun b => (b < 256)%N) (uuidBytes rnd).
Proof.
  unfold uuidBytes. rewrite Forall_map. apply Forall_forall. intros i _.
  cbv zeta.
  assert (Hb : (randomByte rnd i < 256)%N)
    by (apply N.mod_upper_bound; lia).
  destruct (Nat.eqb i 6); [pose proof (version_byte (randomByte rnd i)); lia |].
  destruct (Nat.eqb i 8); [pose proof (variant_byte (randomByte rnd i)); lia |].
  exact Hb.
Qed.

Lemma groups_cover (bytes : list N) :
  length bytes = 16 ->
  firstn 4 (skipn 0 bytes) ++ firstn 2 (skipn 4 bytes) ++
  firstn 2 (skipn 6 bytes) ++ firstn 2 (skipn 8 bytes) ++
  firstn 6 (skipn 10 bytes) = bytes.
Proof.
  intros H.
  do 17 (destruct bytes as [| ? bytes]; try discriminate H).
  reflexivity.
Qed.

Lemma bytesOf_generateMOXUUID rnd :
  bytesOf (generateMOXUUID rnd) = uuidBytes rnd.
Proof.
  unfold bytesOf, generateMOXUUID, toUpperCase, randomUUID. cbv zeta.
  rewrite !list_ascii_of_string_append, !list_ascii_of_string_of_list_ascii.
  set (bytes := uuidBytes rnd).
  unfold hexGroup. rewrite !map_app, !List.filter_app, !filter_upperHex_digits.
  change (List.filter upperHex (list_ascii_of_string "{")) with (@nil ascii).
  change (List.filter upperHex (list_ascii_of_string "}")) with (@nil ascii).
  change (List.filter upperHex (map upperChar ["-"%char])) with (@nil ascii).
  cbn [app]. rewrite app_nil_r.
  rewrite <- !map_app, <- !concat_app, <- !map_app.
  rewrite groups_cover by apply uuidBytes_length.
  apply bytesOfDigits_digits, uuidBytes_bytes.
Qed.

(** What [generateMOXUUID] adds to the platform's identifier, the upper case
    and the braces, loses nothing: two identifiers are equal only when they
    come from the same sixteen bytes, which [bytesOf] reads back. *)
Theorem generateMOXUUID_keeps_the_bytes rnd1 rnd2 :
  bytesOf (generateMOXUUID rnd1) = uuidBytes rnd1 /\
  (generateMOXUUID rnd1 = generateMOXUUID rnd2 <->
   uuidBytes rnd1 = uuidBytes rnd2).
Proof.
  split; [apply bytesOf_generateMOXUUID |]. split.
  - intros H. rewrite <- !bytesOf_generateMOXUUID, H. reflexivity.
  - intros H. unfold generateMOXUUID, randomUUID. cbv zeta.
    rewrite H. reflexivity.
Qed.

(** The null identifier of [generateNullUUID] passes [isValidMOXUUID], and
    [generateMOXUUID] never returns it: the version digit of a generated
    identifier is 4. *)
Theorem generateMOXUUID_never_null rnd :
  isValidMOXUUID generateNullUUID = true /\
  generateMOXUUID rnd <> generateNullUUID /\
  String.get 15 (generateMOXUUID rnd) = Some "4"%char.
Proof.
  split; [reflexivity |].
  assert (H6 : (nth 6 (uuidBytes rnd) 0 / 16 = 4)%N).
  { change (nth 6 (uuidBytes rnd) 0%N)
      with (N.lor (N.land (randomByte rnd 6) 15) 64).
    pose proof (version_byte (randomByte rnd 6)) as Hv.
    set (v := N.lor _ 64) in *. clearbody v.
    apply N.le_antisymm.
    - apply N.lt_succ_r, N.Div0.div_lt_upper_bound. lia.
    - apply N.div_le_lower_bound; lia. }
  split.
  - intros Heq. apply (f_equal bytesOf) in Heq.
    rewrite bytesOf_generateMOXUUID in Heq.
    apply (f_equal (fun l => (nth 6 l 0 / 16)%N)) in Heq.
    cbv beta in Heq. rewrite H6 in Heq. discriminate Heq.
  - unfold generateMOXUUID, toUpperCase, randomUUID, hexGroup. cbv zeta.
    pose proof (uuidBytes_length rnd) as Hlen.
    set (bytes := uuidBytes rnd) in *. clearbody bytes.
    do 17 (destruct bytes as [| ? bytes]; try discriminate Hlen).
    cbn [nth] in H6.
    cbn [firstn skipn map concat hexByte app string_of_list_ascii
         list_ascii_of_string String.append String.get].
    rewrite H6. reflexivity.
Qed.

End UuidGenerator.

(** ** xmlLineIndex.js *)

Module XmlLineIndex.

(** An element of the index: [{ name, lineNumber, columnStart }]. *)
Record entry := {
  name : string;
  lineNumber : nat;
  columnStart : nat
}.

(** *** String primitives, on the list of characters of the string *)

Definition LF : ascii := "010"%char.
Definition CR : ascii := "013"%char.

Fixpoint findIndex (c : ascii) (s : list ascii) : option nat :=
  match s with
  | [] => None
  | c' :: rest =>
      if Ascii.eqb c' c then Some 0
      else option_map S (findIndex c rest)
  end.

(** [s.indexOf(c, position)]; [None] stands for -1. *)
Definition indexOf (s : list ascii) (c : ascii) (position : nat) : option nat :=
  option_map (fun k => position + k) (findIndex c (skipn position s)).

(** [s.substring(start, end)]: both ends are clamped to the length and
    swapped when out of order. *)
Definition substring (s : list ascii) (start finish : nat) : list ascii :=
  let a := Nat.min start (length s) in
  let b := Nat.min finish (length s) in
  firstn (Nat.max a b - Nat.min a b) (skipn (Nat.min a b) s).

(** [s.endsWith(c)] for a single character. *)
Definition endsWith (s : list ascii) (c : ascii) : bool :=
  match last s with
  | Some c' => Ascii.eqb c' c
  | None => false
  end.

(** [s.slice(0, -1)] *)
Definition dropLast (s : list ascii) : list ascii := removelast s.

(** White space and line terminators among the 8-bit characters: TAB, LF,
    VT, FF, CR, space and the no-break space. *)
Definition isWhiteSpace (c : ascii) : bool :=
  let n := nat_of_ascii c in
  (Nat.leb 9 n && Nat.leb n 13) || Nat.eqb n 32 || Nat.eqb n 160.

Fixpoint trimStart (s : list ascii) : list ascii :=
  match s with
  | c :: rest => if isWhiteSpace c then trimStart rest else s
  | [] => []
  end.

(** [s.trim()] *)
Definition trim (s : list ascii) : list ascii :=
  rev (trimStart (rev (trimStart s))).

(** *** The regular expression [/<functionname>([^<]+)<\/functionname>/] *)

Definition openTag : list ascii := list_ascii_of_string "<functionname>".
Definition closeTag : list ascii := list_ascii_of_string "</functionname>".

(** Matches the literal [p] at the start of [s]; returns the rest of [s]. *)
Fixpoint literal (p s : list ascii) : option (list ascii) :=
  match p, s with
  | [], _ => Some s
  | c :: p', c' :: s' => if Ascii.eqb c c' then literal p' s' else None
  | _ :: _, [] => None
  end.

(** The longest run of characters other than [c] at the start of [s], and
    what follows it. *)
Fixpoint runOfNot (c : ascii) (s : list ascii) : list ascii * list ascii :=
  match s with
  | [] => ([], [])
  | c' :: rest =>
      if Ascii.eqb c' c then ([], s)
      else let (run, after) := runOfNot c rest in (c' :: run, after)
  end.

(** The expression tried at the start of [s]; the result is capture group 1.
    [[^<]+] takes the whole run of characters other than [<]: the character
    after a shorter run would not be the [<] that the closing tag starts
    with, so giving characters back can never make the match succeed. *)
Definition matchHere (s : list ascii) : option (list ascii) :=
  match literal openTag s with
  | Some afterOpen =>
      match runOfNot "<" afterOpen with
      | ([], _) => None
      | (group, afterGroup) =>
          match literal closeTag afterGroup with
          | Some _ => Some group
          | None => None
          end
      end
  | None => None
  end.

(** The result of [line.match(regex)]: [match.index] and [match[1]]. *)
Record matchResult := {
  index : nat;
  group1 : list ascii
}.

(** The expression has no [g] flag: the first position at which it matches
    gives the result. *)
Fixpoint matchFrom (position : nat) (s : list ascii) : option matchResult :=
  match matchHere s with
  | Some group => Some {| index := position; group1 := group |}
  | None =>
      match s with
      | [] => None
      | _ :: rest => matchFrom (S position) rest
      end
  end.

Definition regexMatch (line : list ascii) : option matchResult :=
  matchFrom 0 line.

(** *** extractFunctionLineNumbers *)

Definition lineEnd (xmlString : list ascii) (currentPos : nat) : nat :=
  match indexOf xmlString LF currentPos with
  | None => length xmlString
  | Some nextLineBreak => nextLineBreak
  end.

(** The body of the loop up to the [push]. *)
Definition scanLine (xmlString : list ascii) (currentPos lineNumber : nat)
  (functionIndex : list entry) : list entry :=
  let lineEndPos := lineEnd xmlString currentPos in
  let line := substring xmlString currentPos lineEndPos in
  let line := if endsWith line CR then dropLast line else line in
  match regexMatch line with
  | Some m =>
      functionIndex ++
      [{| name := string_of_list_ascii (trim (group1 m));
          lineNumber := lineNumber;
          columnStart := index m |}]
  | None => functionIndex
  end.

Lemma findIndex_lt c s k : findIndex c s = Some k -> k < length s.
Proof.
  revert k. induction s as [| c' s IH]; intros k; simpl; [discriminate |].
  destruct (Ascii.eqb c' c).
  - intros [= <-]. lia.
  - destruct (findIndex c s) as [j |]; [| discriminate].
    intros [= <-]. specialize (IH j eq_refl). lia.
Qed.

Lemma lineEnd_bounds xmlString currentPos :
  currentPos <= length xmlString ->
  currentPos <= lineEnd xmlString currentPos <= length xmlString.
Proof.
  intros Hpos. unfold lineEnd, indexOf.
  destruct (findIndex LF (skipn currentPos xmlString)) as [k |] eqn:Hk; simpl.
  - apply findIndex_lt in Hk. rewrite length_skipn in Hk. lia.
  - lia.
Qed.

(** The [while (currentPos < xmlString.length)] loop. *)
Equations? scanLines (xmlString : list ascii) (currentPos lineNumber : nat)
  (functionIndex : list entry) : list entry
  by wf (length xmlString - currentPos) lt :=
scanLines xmlString currentPos lineNumber functionIndex
  with lt_dec currentPos (length xmlString) := {
  | left _ =>
      scanLines xmlString (lineEnd xmlString currentPos + 1) (lineNumber + 1)
        (scanLine xmlString currentPos lineNumber functionIndex)
  | right _ => functionIndex }.
Proof.
  pose proof (lineEnd_bounds xmlString currentPos). lia.
Qed.

Definition extractFunctionLineNumbers (xmlString : string) : list entry :=
  if String.eqb xmlString "" then []
  else scanLines (list_ascii_of_string xmlString) 0 1 [].

(** *** findFunctionByLineNumber *)

(** [functionIndex[i]]: [None] is [undefined]. *)
Definition at_ (functionIndex : list entry) (i : Z) : option entry :=
  if (i <? 0)%Z then None else nth_error functionIndex (Z.to_nat i).

(** The [while (left <= right)] loop; [left_] and [right_] are the source's
    [left] and [right].  Reading [lineNumber] of an element that is not
    there throws a TypeError. *)
Equations? bisect (functionIndex : list entry) (lineNumber : JS.number)
  (left_ right_ : Z) : JS.outcome (option entry)
  by wf (Z.to_nat (right_ - left_ + 1)) lt :=
bisect functionIndex lineNumber left_ right_ with Z_le_dec left_ right_ := {
  | left _ =>
      let mid := ((left_ + right_) / 2)%Z in
      match at_ functionIndex mid with
      | None => JS.Throw
      | Some current =>
          if JS.strict_eq (JS.of_nat (XmlLineIndex.lineNumber current)) lineNumber
          then JS.Return (Some current)
          else if JS.lt (JS.of_nat (XmlLineIndex.lineNumber current)) lineNumber
          then bisect functionIndex lineNumber (mid + 1)%Z right_
          else bisect functionIndex lineNumber left_ (mid - 1)%Z
      end
  | right _ => JS.Return None }.
Proof.
  all: pose proof (Z.div_mod (left_ + right_) 2 ltac:(lia));
    pose proof (Z.mod_pos_bound (left_ + right_) 2 ltac:(lia)); lia.
Qed.

Definition findFunctionByLineNumber (functionIndex : list entry)
  (lineNumber : JS.number) : JS.outcome (option entry) :=
  let left_ := 0%Z in
  let right_ := (Z.of_nat (length functionIndex) - 1)%Z in
  bisect functionIndex lineNumber left_ right_.

(** [functionIndex.some(fn => fn.lineNumber === lineNumber)] *)
Definition isValidLineNumber (functionIndex : list entry)
  (lineNumber : JS.number) : bool :=
  existsb (fun fn => JS.strict_eq (JS.of_nat (XmlLineIndex.lineNumber fn)) lineNumber)
    functionIndex.

(** *** What the index is: lines and occurrences *)

(** The lines of a text: every LF ends a line, and what follows the last LF,
    when not empty, is a line too. *)
Fixpoint lines (s : list ascii) : list (list ascii) :=
  match s with
  | [] => []
  | c :: rest =>
      if Ascii.eqb c LF then [] :: lines rest
      else match lines rest with
           | [] => [[c]]
           | l :: ls => (c :: l) :: ls
           end
  end.

(** A line without the CR of a CRLF ending. *)
Definition stripCR (line : list ascii) : list ascii :=
  if endsWith line CR then dropLast line else line.

(** The text with every line ending LF turned into CRLF. *)
Fixpoint toCRLF (s : list ascii) : list ascii :=
  match s with
  | [] => []
  | c :: rest =>
      if Ascii.eqb c LF then CR :: LF :: toCRLF rest else c :: toCRLF rest
  end.

(** An occurrence of the tag in a line, at column [col] and with content
    [content]: the opening tag, a non-empty content without [<], and the
    closing tag. *)
Definition occursAt (line : list ascii) (col : nat) (content : list ascii)
  : Prop :=
  exists rest,
    skipn col line = openTag ++ content ++ closeTag ++ rest /\
    content <> [] /\ ~ In "<"%char content.

(** The leftmost occurrence of a line. *)
Definition firstOccurrence (line : list ascii) (col : nat)
  (content : list ascii) : Prop :=
  occursAt line col content /\
  forall col' content', occursAt line col' content' -> col <= col'.

Definition entryOfLine (lineNumber : nat) (line : list ascii) : list entry :=
  match regexMatch (stripCR line) with
  | Some m =>
      [{| name := string_of_list_ascii (trim (group1 m));
          lineNumber := lineNumber;
          columnStart := index m |}]
  | None => []
  end.

Fixpoint entriesOf (lineNumber : nat) (ls : list (list ascii)) : list entry :=
  match ls with
  | [] => []
  | l :: ls' => entryOfLine lineNumber l ++ entriesOf (S lineNumber) ls'
  end.

(** The strict order of the index. *)
Definition before (a b : entry) : Prop := lineNumber a < lineNumber b.

Lemma lines_step t :
  t <> [] ->
  lines t =
  match findIndex LF t with
  | None => [t]
  | Some k => firstn k t :: lines (skipn (S k) t)
  end.
Proof.
  induction t as [| c t IH]; intros Hne; [contradiction |].
  simpl. destruct (Ascii.eqb c LF) eqn:Hc; [reflexivity |].
  destruct t as [| c' t'].
  - reflexivity.
  - rewrite IH by discriminate.
    destruct (findIndex LF (c' :: t')) as [k |]; reflexivity.
Qed.

Lemma substring_firstn s start finish :
  start <= finish <= length s ->
  substring s start finish = firstn (finish - start) (skipn start s).
Proof.
  intros H. unfold substring.
  replace (Nat.min start (length s)) with start by lia.
  replace (Nat.min finish (length s)) with finish by lia.
  replace (Nat.max start finish) with finish by lia.
  replace (Nat.min start finish) with start by lia.
  reflexivity.
Qed.

Lemma scanLine_entryOfLine s pos ln acc :
  scanLine s pos ln acc =
  acc ++ entryOfLine ln (substring s pos (lineEnd s pos)).
Proof.
  unfold scanLine, entryOfLine, stripCR.
  destruct (regexMatch _); [reflexivity | rewrite app_nil_r; reflexivity].
Qed.

Lemma scanLines_step s pos ln acc :
  scanLines s pos ln acc =
  if lt_dec pos (length s)
  then scanLines s (lineEnd s pos + 1) (ln + 1) (scanLine s pos ln acc)
  else acc.
Proof.
  rewrite scanLines_equation_1.
  destruct (lt_dec pos (length s)); reflexivity.
Qed.

Lemma scanLines_lines n s pos ln acc :
  length s - pos <= n ->
  scanLines s pos ln acc = acc ++ entriesOf ln (lines (skipn pos s)).
Proof.
  revert pos ln acc. induction n as [| n IH]; intros pos ln acc Hn;
    rewrite scanLines_step; destruct (lt_dec pos (length s)) as [Hlt | Hge].
  - lia.
  - rewrite skipn_all2 by lia. simpl. rewrite app_nil_r. reflexivity.
  - pose proof (lineEnd_bounds s pos ltac:(lia)) as Hb.
    rewrite IH by lia. rewrite scanLine_entryOfLine.
    rewrite substring_firstn by lia.
    rewrite <- app_assoc. f_equal.
    assert (Hne : skipn pos s <> []).
    { intros Hnil. apply (f_equal (@length ascii)) in Hnil.
      rewrite length_skipn in Hnil. simpl in Hnil. lia. }
    rewrite (lines_step _ Hne).
    unfold lineEnd, indexOf in *.
    destruct (findIndex LF (skipn pos s)) as [k |] eqn:Hk; simpl in *.
    + replace (pos + k - pos) with k by lia.
      replace (pos + k + 1) with (S k + pos) by lia.
      rewrite <- skipn_skipn. rewrite Nat.add_1_r. reflexivity.
    + rewrite (skipn_all2 s (n := length s + 1)) by lia.
      rewrite firstn_all2 by (rewrite length_skipn; lia).
      reflexivity.
  - rewrite skipn_all2 by lia. simpl. rewrite app_nil_r. reflexivity.
Qed.

(** The index is the list of the entries of the lines, in order. *)
Lemma extractFunctionLineNumbers_lines xmlString :
  extractFunctionLineNumbers xmlString =
  entriesOf 1 (lines (list_ascii_of_string xmlString)).
Proof.
  unfold extractFunctionLineNumbers.
  destruct (String.eqb_spec xmlString "") as [-> | _]; [reflexivity |].
  rewrite (scanLines_lines (length (list_ascii_of_string xmlString)))
    by lia.
  reflexivity.
Qed.

(** The regular expression against its reading as a set of occurrences. *)

Lemma literal_spec p s rest : literal p s = Some rest <-> s = p ++ rest.
Proof.
  revert s. induction p as [| c p IH]; intros s; simpl.
  - split; [intros [= ->]; reflexivity | intros ->; reflexivity].
  - destruct s as [| c' s]; [split; discriminate |].
    destruct (Ascii.eqb_spec c c') as [-> | Hne].
    + rewrite IH. split; [intros ->; reflexivity | intros [= ->]; reflexivity].
    + split; [discriminate | intros [= ? ?]; congruence].
Qed.

Lemma runOfNot_app c run after :
  ~ In c run -> (after = [] \/ exists after', after = c :: after') ->
  runOfNot c (run ++ after) = (run, after).
Proof.
  intros Hrun Hafter. induction run as [| c' run IH]; simpl.
  - destruct Hafter as [-> | (after' & ->)]; simpl; [reflexivity |].
    rewrite Ascii.eqb_refl. reflexivity.
  - destruct (Ascii.eqb_spec c' c) as [-> | Hne].
    + exfalso. apply Hrun. left. reflexivity.
    + rewrite IH; [reflexivity |]. intros Hin. apply Hrun. right. exact Hin.
Qed.

Lemma runOfNot_spec c s run after :
  runOfNot c s = (run, after) ->
  s = run ++ after /\ ~ In c run /\
  (after = [] \/ exists after', after = c :: after').
Proof.
  revert run after. induction s as [| c' s IH]; intros run after; simpl.
  - intros [= <- <-]. repeat split; auto.
  - destruct (Ascii.eqb_spec c' c) as [-> | Hne].
    + intros [= <- <-]. repeat split; eauto.
    + destruct (runOfNot c s) as [run' after'] eqn:Hr.
      intros [= <- <-]. destruct (IH _ _ eq_refl) as (-> & Hnin & Hafter).
      repeat split; [| exact Hafter].
      intros [Heq | Hin]; [congruence | contradiction].
Qed.

Lemma matchHere_spec s content :
  matchHere s = Some content <->
  exists rest, s = openTag ++ content ++ closeTag ++ rest /\
               content <> [] /\ ~ In "<"%char content.
Proof.
  unfold matchHere. split.
  - destruct (literal openTag s) as [afterOpen |] eqn:Ho; [| discriminate].
    apply literal_spec in Ho as ->.
    destruct (runOfNot "<" afterOpen) as [run after] eqn:Hr.
    apply runOfNot_spec in Hr as (-> & Hnin & _).
    destruct run as [| c run]; [discriminate |].
    destruct (literal closeTag after) as [rest |] eqn:Hc; [| discriminate].
    apply literal_spec in Hc as ->. intros [= <-].
    exists rest. split; [reflexivity | split; [discriminate | exact Hnin]].
  - intros (rest & -> & Hne & Hnin).
    assert (Ho : literal openTag (openTag ++ content ++ closeTag ++ rest) =
                 Some (content ++ closeTag ++ rest))
      by (apply literal_spec; reflexivity).
    rewrite Ho. rewrite runOfNot_app.
    + destruct content as [| c content]; [contradiction |].
      assert (Hc : literal closeTag (closeTag ++ rest) = Some rest)
        by (apply literal_spec; reflexivity).
      rewrite Hc. reflexivity.
    + exact Hnin.
    + right. eexists. reflexivity.
Qed.

Lemma occursAt_matchHere line col content :
  occursAt line col content <-> matchHere (skipn col line) = Some content.
Proof. unfold occursAt. rewrite matchHere_spec. reflexivity. Qed.

Lemma matchFrom_Some position s m :
  matchFrom position s = Some m <->
  exists k, index m = position + k /\
            matchHere (skipn k s) = Some (group1 m) /\
            forall j, j < k -> matchHere (skipn j s) = None.
Proof.
  revert position. induction s as [| c s IH]; intros position.
  - simpl. split; [discriminate |].
    intros (k & _ & Hk & _). destruct k; discriminate.
  - cbn [matchFrom]. destruct (matchHere (c :: s)) as [g |] eqn:Hg.
    + split.
      * intros [= <-]. exists 0. simpl.
        repeat split; [lia | exact Hg | intros j Hj; lia].
      * intros (k & Hi & Hk & Hbefore). destruct k as [| k].
        -- simpl in Hk. destruct m as [i g']; simpl in *.
           f_equal. f_equal; [lia | congruence].
        -- specialize (Hbefore 0 ltac:(lia)). simpl in Hbefore. congruence.
    + rewrite IH. split.
      * intros (k & Hi & Hk & Hbefore). exists (S k).
        repeat split; [lia | exact Hk |].
        intros [| j] Hj; [exact Hg | apply Hbefore; lia].
      * intros (k & Hi & Hk & Hbefore). destruct k as [| k].
        -- simpl in Hk. congruence.
        -- exists k. repeat split; [lia | exact Hk |].
           intros j Hj. apply (Hbefore (S j)). lia.
Qed.

Lemma matchFrom_None position s :
  matchFrom position s = None <-> forall j, matchHere (skipn j s) = None.
Proof.
  revert position. induction s as [| c s IH]; intros position.
  - simpl. split; [| reflexivity]. intros _ j. destruct j; reflexivity.
  - cbn [matchFrom]. destruct (matchHere (c :: s)) as [g |] eqn:Hg.
    + split; [discriminate |]. intros H. specialize (H 0). simpl in H.
      congruence.
    + rewrite IH. split.
      * intros H [| j]; [exact Hg | apply H].
      * intros H j. apply (H (S j)).
Qed.

Lemma regexMatch_firstOccurrence line m :
  regexMatch line = Some m <->
  firstOccurrence line (index m) (group1 m).
Proof.
  unfold regexMatch, firstOccurrence. rewrite matchFrom_Some. split.
  - intros (k & Hi & Hk & Hbefore). simpl in Hi. subst k. split.
    + apply occursAt_matchHere. exact Hk.
    + intros col' content' Hocc. apply occursAt_matchHere in Hocc.
      destruct (Nat.le_gt_cases (index m) col') as [Hle | Hgt]; [exact Hle |].
      rewrite (Hbefore col' Hgt) in Hocc. discriminate.
  - intros [Hocc Hfirst]. exists (index m). repeat split.
    + apply occursAt_matchHere. exact Hocc.
    + intros j Hj. destruct (matchHere (skipn j line)) as [g |] eqn:Hg;
        [| reflexivity].
      apply occursAt_matchHere, Hfirst in Hg. lia.
Qed.

Lemma regexMatch_no_occurrence line :
  regexMatch line = None <-> forall col content, ~ occursAt line col content.
Proof.
  unfold regexMatch. rewrite matchFrom_None. split.
  - intros H col content Hocc. apply occursAt_matchHere in Hocc.
    rewrite H in Hocc. discriminate.
  - intros H j. destruct (matchHere (skipn j line)) as [g |] eqn:Hg;
      [| reflexivity].
    apply occursAt_matchHere in Hg. elim (H _ _ Hg).
Qed.

(** The leftmost occurrence of a line is unique. *)
Lemma firstOccurrence_unique line col content col' content' :
  firstOccurrence line col content -> firstOccurrence line col' content' ->
  col = col' /\ content = content'.
Proof.
  intros [H1 F1] [H2 F2].
  assert (col = col') as <- by (apply Nat.le_antisymm; eauto).
  split; [reflexivity |].
  apply occursAt_matchHere in H1, H2. congruence.
Qed.

Lemma In_entryOfLine e n line :
  In e (entryOfLine n line) <->
  lineNumber e = n /\
  exists content,
    firstOccurrence (stripCR line) (columnStart e) content /\
    name e = string_of_list_ascii (trim content).
Proof.
  unfold entryOfLine. destruct (regexMatch (stripCR line)) as [m |] eqn:Hm.
  - apply regexMatch_firstOccurrence in Hm. split.
    + intros [<- | []]. simpl. split; [reflexivity |].
      exists (group1 m). split; [exact Hm | reflexivity].
    + intros (Hn & content & Hfirst & Hname). left.
      destruct (firstOccurrence_unique _ _ _ _ _ Hm Hfirst) as [Hc Hg].
      destruct e as [nm ln col]; simpl in *. subst. reflexivity.
  - split; [intros [] |].
    intros (_ & content & [Hocc _] & _).
    eapply regexMatch_no_occurrence in Hm. elim Hm. exact Hocc.
Qed.

Lemma In_entriesOf e n ls :
  In e (entriesOf n ls) <->
  exists i line, nth_error ls i = Some line /\ In e (entryOfLine (n + i) line).
Proof.
  revert n. induction ls as [| l ls IH]; intros n; simpl.
  - split; [intros [] |]. intros (i & line & Hnth & _).
    destruct i; discriminate.
  - rewrite in_app_iff, IH. split.
    + intros [H | (i & line & Hnth & Hin)].
      * exists 0, l. rewrite Nat.add_0_r. auto.
      * exists (S i), line. rewrite Nat.add_succ_r. auto.
    + intros ([| i] & line & Hnth & Hin); simpl in Hnth.
      * injection Hnth as ->. rewrite Nat.add_0_r in Hin. left. exact Hin.
      * right. exists i, line. rewrite Nat.add_succ_r in Hin. auto.
Qed.

Lemma entriesOf_sorted n ls :
  StronglySorted before (entriesOf n ls) /\
  Forall (fun e => n <= lineNumber e) (entriesOf n ls).
Proof.
  revert n. induction ls as [| l ls IH]; intros n; simpl.
  - split; constructor.
  - destruct (IH (S n)) as [Hs Hf].
    assert (Hf' : Forall (fun e => n <= lineNumber e) (entriesOf (S n) ls)).
    { eapply Forall_impl; [exact Hf |]. simpl. intros; lia. }
    unfold entryOfLine. destruct (regexMatch (stripCR l)) as [m |]; simpl.
    + split.
      * constructor; [exact Hs |].
        eapply Forall_impl; [exact Hf |]. unfold before. simpl. intros; lia.
      * constructor; [simpl; lia | exact Hf'].
    + split; assumption.
Qed.

(** *** LF and CRLF *)

Lemma stripCR_cons c l : c <> CR -> stripCR (c :: l) = c :: stripCR l.
Proof.
  intros Hc. unfold stripCR, endsWith, dropLast. destruct l as [| c' l'].
  - simpl. destruct (Ascii.eqb_spec c CR); [contradiction | reflexivity].
  - change (last (c :: c' :: l')) with (last (c' :: l')).
    destruct (last (c' :: l')) as [x |]; [| reflexivity].
    destruct (Ascii.eqb x CR); reflexivity.
Qed.

Lemma stripCR_without_CR l : ~ In CR l -> stripCR l = l.
Proof.
  intros Hno. unfold stripCR, endsWith.
  destruct (last l) as [x |] eqn:Hlast; [| reflexivity].
  destruct (Ascii.eqb_spec x CR) as [-> | _]; [| reflexivity].
  exfalso. apply Hno. apply list_elem_of_In.
  apply last_Some in Hlast as [l' ->]. apply list_elem_of_In.
  apply in_app_iff. right. left. reflexivity.
Qed.

Lemma lines_without_CR s :
  ~ In CR s -> Forall (fun l => ~ In CR l) (lines s).
Proof.
  induction s as [| c s IH]; intros Hno; [constructor |].
  assert (Hs : ~ In CR s) by (intros H; apply Hno; right; exact H).
  assert (Hc : c <> CR) by (intros ->; apply Hno; left; reflexivity).
  specialize (IH Hs). simpl. destruct (Ascii.eqb c LF).
  - constructor; [intros [] | exact IH].
  - destruct (lines s) as [| l ls].
    + constructor; [| constructor]. intros [H | []]. congruence.
    + inversion IH as [| ? ? Hl Hls]; subst. constructor; [| exact Hls].
      intros [H | H]; [congruence | contradiction].
Qed.

(** The lines of the CRLF text are, without their CR, the lines of the LF
    text. *)
Lemma lines_toCRLF s :
  ~ In CR s -> map stripCR (lines (toCRLF s)) = lines s.
Proof.
  induction s as [| c s IH]; intros Hno; [reflexivity |].
  assert (Hs : ~ In CR s) by (intros H; apply Hno; right; exact H).
  assert (Hc : c <> CR) by (intros ->; apply Hno; left; reflexivity).
  specialize (IH Hs). cbn [toCRLF lines].
  destruct (Ascii.eqb c LF) eqn:HcLF.
  - cbn [lines]. replace (Ascii.eqb CR LF) with false by reflexivity.
    rewrite Ascii.eqb_refl. cbn [map]. rewrite IH. reflexivity.
  - cbn [lines]. rewrite HcLF. rewrite <- IH.
    destruct (lines (toCRLF s)) as [| l ls];
      cbn [map]; rewrite (stripCR_cons _ _ Hc); reflexivity.
Qed.

Lemma entriesOf_stripCR n ls ls' :
  map stripCR ls = map stripCR ls' -> entriesOf n ls = entriesOf n ls'.
Proof.
  revert n ls'. induction ls as [| l ls IH]; intros n [| l' ls'] H;
    try discriminate; [reflexivity |].
  injection H as Hl Hls. cbn [entriesOf]. unfold entryOfLine.
  rewrite Hl, (IH _ _ Hls). reflexivity.
Qed.

(** A text has the same index with CRLF endings as with LF endings. *)
Lemma extractFunctionLineNumbers_CRLF xmlString :
  ~ In CR (list_ascii_of_string xmlString) ->
  extractFunctionLineNumbers
    (string_of_list_ascii (toCRLF (list_ascii_of_string xmlString))) =
  extractFunctionLineNumbers xmlString.
Proof.
  intros Hno. rewrite !extractFunctionLineNumbers_lines.
  rewrite list_ascii_of_string_of_list_ascii.
  apply entriesOf_stripCR. rewrite (lines_toCRLF _ Hno).
  symmetry. rewrite <- (map_id (lines _)) at 2.
  apply map_ext_Forall.
  eapply Forall_impl; [apply lines_without_CR; exact Hno |].
  intros l Hl. apply stripCR_without_CR. exact Hl.
Qed.

(** *** The binary search *)

(** [fn.lineNumber === lineNumber] *)
Definition atLine (lineNumber : JS.number) (fn : entry) : bool :=
  JS.strict_eq (JS.of_nat (XmlLineIndex.lineNumber fn)) lineNumber.

(** The first entry of the index at a line, found by reading the index from
    its start. *)
Definition entryAtLine (functionIndex : list entry) (lineNumber : JS.number)
  : option entry :=
  List.find (atLine lineNumber) functionIndex.

Lemma inject_nat_le a b :
  a <= b -> (inject_Z (Z.of_nat a) <= inject_Z (Z.of_nat b))%Q.
Proof. intros H. rewrite <- Zle_Qle. lia. Qed.

Lemma strict_eq_of_nat_inj a b L :
  JS.strict_eq (JS.of_nat a) L = true -> JS.strict_eq (JS.of_nat b) L = true ->
  a = b.
Proof.
  unfold JS.of_nat, JS.of_Z.
  destruct L as [| | | q]; cbn [JS.strict_eq]; try discriminate.
  intros Ha%Qeq_bool_iff Hb%Qeq_bool_iff.
  assert (H : (inject_Z (Z.of_nat a) == inject_Z (Z.of_nat b))%Q)
    by (rewrite Ha, Hb; reflexivity).
  unfold Qeq in H. simpl in H. lia.
Qed.

Lemma strict_eq_below a b L :
  a <= b -> JS.lt (JS.of_nat b) L = true ->
  JS.strict_eq (JS.of_nat a) L = false.
Proof.
  intros Hab%inject_nat_le. unfold JS.of_nat, JS.of_Z.
  destruct L as [| | | q]; cbn [JS.strict_eq JS.lt]; try reflexivity.
  intros Hlt%negb_true_iff%JS.Qle_bool_false.
  apply not_true_is_false. intros Heq%Qeq_bool_iff. lra.
Qed.

Lemma strict_eq_above a b L :
  a <= b -> JS.strict_eq (JS.of_nat a) L = false ->
  JS.lt (JS.of_nat a) L = false ->
  JS.strict_eq (JS.of_nat b) L = false.
Proof.
  intros Hab%inject_nat_le. unfold JS.of_nat, JS.of_Z.
  destruct L as [| | | q]; cbn [JS.strict_eq JS.lt]; try reflexivity.
  intros Hne Hlt%negb_false_iff%Qle_bool_iff.
  apply not_true_is_false. intros Heq%Qeq_bool_iff.
  assert (Ha : (inject_Z (Z.of_nat a) == q)%Q) by lra.
  apply Qeq_bool_iff in Ha. congruence.
Qed.

Lemma sorted_nth functionIndex :
  StronglySorted before functionIndex ->
  forall i j ei ej,
    i < j -> nth_error functionIndex i = Some ei ->
    nth_error functionIndex j = Some ej ->
    lineNumber ei < lineNumber ej.
Proof.
  induction 1 as [| e l Hs IH Hall]; intros i j ei ej Hij Hi Hj.
  - destruct i; discriminate.
  - destruct j as [| j]; [lia |]. simpl in Hj.
    destruct i as [| i]; simpl in Hi.
    + injection Hi as <-. apply nth_error_In in Hj.
      rewrite Forall_forall in Hall. apply Hall.
      apply list_elem_of_In. exact Hj.
    + eapply IH; [| exact Hi | exact Hj]. lia.
Qed.

Lemma find_at {A} (p : A -> bool) l i x :
  nth_error l i = Some x -> p x = true ->
  (forall j y, j < i -> nth_error l j = Some y -> p y = false) ->
  List.find p l = Some x.
Proof.
  revert i. induction l as [| a l IH]; intros i Hi Hp Hbefore.
  - destruct i; discriminate.
  - simpl. destruct i as [| i]; simpl in Hi.
    + injection Hi as ->. rewrite Hp. reflexivity.
    + rewrite (Hbefore 0 a ltac:(lia) eq_refl).
      apply (IH i Hi Hp). intros j y Hj Hy. apply (Hbefore (S j) y); [lia | exact Hy].
Qed.

Lemma find_nowhere {A} (p : A -> bool) l :
  (forall j y, nth_error l j = Some y -> p y = false) -> List.find p l = None.
Proof.
  induction l as [| a l IH]; intros H; [reflexivity |].
  simpl. rewrite (H 0 a eq_refl). apply IH.
  intros j y Hy. apply (H (S j) y Hy).
Qed.

Lemma bisect_step functionIndex lineNumber left_ right_ :
  bisect functionIndex lineNumber left_ right_ =
  if Z_le_dec left_ right_ then
    let mid := ((left_ + right_) / 2)%Z in
    match at_ functionIndex mid with
    | None => JS.Throw
    | Some current =>
        if atLine lineNumber current then JS.Return (Some current)
        else if JS.lt (JS.of_nat (XmlLineIndex.lineNumber current)) lineNumber
        then bisect functionIndex lineNumber (mid + 1)%Z right_
        else bisect functionIndex lineNumber left_ (mid - 1)%Z
    end
  else JS.Return None.
Proof.
  rewrite bisect_equation_1.
  destruct (Z_le_dec left_ right_); reflexivity.
Qed.

(** The loop invariant: every entry at the searched line lies between
    [left_] and [right_]. *)
Lemma bisect_correct functionIndex lineNumber :
  StronglySorted before functionIndex ->
  forall n left_ right_,
    Z.to_nat (right_ - left_ + 1) <= n ->
    (0 <= left_)%Z -> (right_ < Z.of_nat (length functionIndex))%Z ->
    (forall j fn, nth_error functionIndex j = Some fn ->
                  atLine lineNumber fn = true ->
                  (left_ <= Z.of_nat j <= right_)%Z) ->
    bisect functionIndex lineNumber left_ right_ =
    JS.Return (entryAtLine functionIndex lineNumber).
Proof.
  intros Hsorted. pose proof (sorted_nth _ Hsorted) as Hnth.
  induction n as [| n IH]; intros l r Hn Hl Hr Hinv;
    rewrite bisect_step; destruct (Z_le_dec l r) as [Hle | Hgt];
    try lia;
    try (f_equal; symmetry; apply find_nowhere; intros j fn Hj;
         destruct (atLine lineNumber fn) eqn:Hm; [| reflexivity];
         specialize (Hinv j fn Hj Hm); lia).
  cbv zeta.
  {
    assert (Hmid : (l <= (l + r) / 2 <= r)%Z).
    { pose proof (Z.div_mod (l + r) 2 ltac:(lia)).
      pose proof (Z.mod_pos_bound (l + r) 2 ltac:(lia)). lia. }
    set (mid := ((l + r) / 2)%Z) in *.
    unfold at_. destruct (Z.ltb_spec mid 0) as [Hneg | _]; [lia |].
    destruct (nth_error functionIndex (Z.to_nat mid)) as [current |] eqn:Hcur.
    2: { apply nth_error_None in Hcur. lia. }
    destruct (atLine lineNumber current) eqn:Hm.
    + f_equal. symmetry. apply (find_at _ _ (Z.to_nat mid)); [exact Hcur | exact Hm |].
      intros j fn Hj Hfn. apply not_true_is_false. intros Hm'.
      pose proof (Hnth _ _ _ _ Hj Hfn Hcur) as Hlt.
      pose proof (strict_eq_of_nat_inj _ _ _ Hm' Hm). lia.
    + destruct (JS.lt (JS.of_nat (XmlLineIndex.lineNumber current)) lineNumber)
        eqn:Hlt.
      * apply IH; try lia.
        intros j fn Hj Hfn. specialize (Hinv j fn Hj Hfn).
        destruct (Z.le_gt_cases (Z.of_nat j) mid) as [Hjm | Hjm]; [| lia].
        exfalso.
        assert (Hle' : XmlLineIndex.lineNumber fn <=
                       XmlLineIndex.lineNumber current).
        { destruct (Nat.eq_dec j (Z.to_nat mid)) as [-> | Hne].
          - rewrite Hcur in Hj. injection Hj as <-. lia.
          - apply Nat.lt_le_incl.
            apply (Hnth j (Z.to_nat mid)); [lia | exact Hj | exact Hcur]. }
        pose proof (strict_eq_below _ _ _ Hle' Hlt) as Hno.
        unfold atLine in Hfn. congruence.
      * apply IH; try lia.
        intros j fn Hj Hfn. specialize (Hinv j fn Hj Hfn).
        destruct (Z.le_gt_cases mid (Z.of_nat j)) as [Hjm | Hjm]; [| lia].
        exfalso.
        assert (Hle' : XmlLineIndex.lineNumber current <=
                       XmlLineIndex.lineNumber fn).
        { destruct (Nat.eq_dec j (Z.to_nat mid)) as [-> | Hne].
          - rewrite Hcur in Hj. injection Hj as <-. lia.
          - apply Nat.lt_le_incl.
            apply (Hnth (Z.to_nat mid) j); [lia | exact Hcur | exact Hj]. }
        pose proof (strict_eq_above _ _ _ Hle' Hm Hlt) as Hno.
        unfold atLine in Hfn. congruence.
  }
Qed.

Lemma findFunctionByLineNumber_sorted functionIndex lineNumber :
  StronglySorted before functionIndex ->
  findFunctionByLineNumber functionIndex lineNumber =
  JS.Return (entryAtLine functionIndex lineNumber).
Proof.
  intros Hsorted. unfold findFunctionByLineNumber. cbv zeta.
  apply (bisect_correct _ _ Hsorted (length functionIndex)); try lia.
  intros j fn Hj _.
  assert (j < length functionIndex) by (apply nth_error_Some; congruence).
  lia.
Qed.

Lemma entryAtLine_Some functionIndex lineNumber fn :
  StronglySorted before functionIndex ->
  In fn functionIndex -> atLine lineNumber fn = true ->
  entryAtLine functionIndex lineNumber = Some fn.
Proof.
  intros Hsorted Hin Hm. apply In_nth_error in Hin as [i Hi].
  apply (find_at _ _ i); [exact Hi | exact Hm |].
  intros j y Hj Hy. apply not_true_is_false. intros Hm'.
  pose proof (sorted_nth _ Hsorted _ _ _ _ Hj Hy Hi).
  pose proof (strict_eq_of_nat_inj _ _ _ Hm' Hm). lia.
Qed.

Lemma entryAtLine_None functionIndex lineNumber :
  (forall fn, In fn functionIndex -> atLine lineNumber fn = false) ->
  entryAtLine functionIndex lineNumber = None.
Proof.
  intros H. apply find_nowhere. intros j y Hy. apply H.
  eapply nth_error_In. exact Hy.
Qed.

(** *** The properties of the index *)

Lemma extractFunctionLineNumbers_sorted xmlString :
  StronglySorted before (extractFunctionLineNumbers xmlString).
Proof.
  rewrite extractFunctionLineNumbers_lines. apply entriesOf_sorted.
Qed.

(** A document with LF and CRLF endings, an empty line, a line with two
    tags, a tag without content and a tag whose content holds another
    tag. *)
Definition sampleDocument : string :=
  ("<function>" ++ String LF
    ("    <functionname> DC Voltage </functionname>" ++ String CR (String LF
    ("<x/>" ++ String LF (String LF
    ("<functionname>A</functionname><functionname>B</functionname>" ++ String LF
    ("<functionname></functionname>" ++ String LF
    ("<functionname>C<b></functionname>" ++ String CR (String LF ""))))))))
  )%string.

Example sampleDocument_index :
  extractFunctionLineNumbers sampleDocument =
  [ {| name := "DC Voltage"; lineNumber := 2; columnStart := 4 |};
    {| name := "A"; lineNumber := 5; columnStart := 0 |} ].
Proof. reflexivity. Qed.

Example sampleDocument_find :
  let functionIndex := extractFunctionLineNumbers sampleDocument in
  findFunctionByLineNumber functionIndex (JS.of_nat 2) =
    JS.Return (Some {| name := "DC Voltage"; lineNumber := 2; columnStart := 4 |}) /\
  findFunctionByLineNumber functionIndex (JS.of_nat 3) = JS.Return None /\
  findFunctionByLineNumber functionIndex JS.NaN = JS.Return None.
Proof. repeat split; reflexivity. Qed.

(** C2. The index of any text has strictly increasing line numbers, and the
    binary search over it returns, without throwing, the entry whose line
    number is the searched one when there is such an entry, and null
    ([None]) when there is none. *)
Theorem findFunctionByLineNumber_correct xmlString lineNumber :
  let functionIndex := extractFunctionLineNumbers xmlString in
  StronglySorted before functionIndex /\
  findFunctionByLineNumber functionIndex lineNumber =
    JS.Return (entryAtLine functionIndex lineNumber) /\
  (forall fn, In fn functionIndex -> atLine lineNumber fn = true ->
     findFunctionByLineNumber functionIndex lineNumber = JS.Return (Some fn)) /\
  ((forall fn, In fn functionIndex -> atLine lineNumber fn = false) ->
     findFunctionByLineNumber functionIndex lineNumber = JS.Return None).
Proof.
  intros functionIndex.
  pose proof (extractFunctionLineNumbers_sorted xmlString) as Hsorted.
  fold functionIndex in Hsorted.
  split; [exact Hsorted |]. split; [| split].
  - apply findFunctionByLineNumber_sorted. exact Hsorted.
  - intros fn Hin Hfn. rewrite findFunctionByLineNumber_sorted by exact Hsorted.
    f_equal. apply entryAtLine_Some; assumption.
  - intros Hnone. rewrite findFunctionByLineNumber_sorted by exact Hsorted.
    f_equal. apply entryAtLine_None. exact Hnone.
Qed.

(** C3. The documentation of [extractFunctionLineNumbers] promises the
    line numbers of all the tags, an entry for every occurrence.  On a line
    that holds the tag twice the code indexes the first occurrence only:
    the text below is one line with an occurrence at column 0 and one at
    column 30, its index is the single entry of the first, and so not every
    occurrence has an entry. *)
Lemma second_occurrence_on_a_line_counterexample :
  let xmlString :=
    "<functionname>A</functionname><functionname>B</functionname>"%string in
  let line := list_ascii_of_string xmlString in
  lines line = [line] /\
  occursAt line 0 ["A"%char] /\
  occursAt line 30 ["B"%char] /\
  extractFunctionLineNumbers xmlString =
    [ {| name := "A"; lineNumber := 1; columnStart := 0 |} ] /\
  ~ (forall col content, occursAt line col content ->
       exists fn, In fn (extractFunctionLineNumbers xmlString) /\
                  columnStart fn = col).
Proof.
  intros xmlString line.
  assert (Hb : occursAt line 30 ["B"%char]).
  { exists []. split; [reflexivity |]. split; [discriminate |].
    intros [H | []]. discriminate. }
  split; [reflexivity |]. split; [| split; [exact Hb | split; [reflexivity |]]].
  - eexists. split; [reflexivity |]. split; [discriminate |].
    intros [H | []]. discriminate.
  - intros H. destruct (H _ _ Hb) as (fn & Hin & Hcol).
    destruct Hin as [<- | []]. discriminate.
Qed.

(** What the index does hold.  The entries are those of the lines that
    contain a match of the regular expression (the opening tag, one or more
    characters other than [<], the closing tag), whether the line ends with
    LF or with CRLF: one entry for such a line, with the trimmed content of
    its leftmost match as name, the 1-based number of the line and the
    column of that match; no other entry.  A text written with LF endings
    has the same index when written with CRLF endings. *)
Theorem extractFunctionLineNumbers_first_occurrences xmlString :
  let text := list_ascii_of_string xmlString in
  let functionIndex := extractFunctionLineNumbers xmlString in
  StronglySorted before functionIndex /\
  (forall fn,
     In fn functionIndex <->
     exists line content,
       1 <= lineNumber fn /\
       nth_error (lines text) (lineNumber fn - 1) = Some line /\
       firstOccurrence (stripCR line) (columnStart fn) content /\
       name fn = string_of_list_ascii (trim content)) /\
  (~ In CR text ->
   extractFunctionLineNumbers (string_of_list_ascii (toCRLF text)) =
   functionIndex).
Proof.
  intros text functionIndex.
  split; [apply extractFunctionLineNumbers_sorted |].
  split; [| apply extractFunctionLineNumbers_CRLF].
  intros fn. unfold functionIndex.
  rewrite extractFunctionLineNumbers_lines, In_entriesOf. fold text. split.
  - intros (i & line & Hnth & (Hn & content & Hfirst & Hname)%In_entryOfLine).
    exists line, content. rewrite Hn.
    replace (1 + i - 1) with i by lia.
    repeat split; [lia | exact Hnth | apply Hfirst | apply Hfirst | exact Hname].
  - intros (line & content & Hpos & Hnth & Hfirst & Hname).
    exists (lineNumber fn - 1), line. split; [exact Hnth |].
    apply In_entryOfLine. split; [lia |].
    exists content. split; assumption.
Qed.

(** *** isValidLineNumber and the search on any index *)

Lemma find_existsb {A} (p : A -> bool) l :
  existsb p l = true <-> exists x, List.find p l = Some x.
Proof.
  induction l as [| a l IH]; simpl.
  - split; [discriminate | intros [x H]; discriminate].
  - destruct (p a); simpl; [split; eauto | exact IH].
Qed.

(** On the index of a text, [isValidLineNumber] says true exactly when
    [findFunctionByLineNumber] returns an entry. *)
Theorem isValidLineNumber_iff_found xmlString lineNumber :
  let functionIndex := extractFunctionLineNumbers xmlString in
  isValidLineNumber functionIndex lineNumber = true <->
  exists fn,
    findFunctionByLineNumber functionIndex lineNumber = JS.Return (Some fn).
Proof.
  intros functionIndex.
  rewrite (findFunctionByLineNumber_sorted functionIndex lineNumber
             (extractFunctionLineNumbers_sorted xmlString)).
  unfold isValidLineNumber, entryAtLine.
  change (fun fn => JS.strict_eq (JS.of_nat (XmlLineIndex.lineNumber fn)) lineNumber)
    with (atLine lineNumber).
  rewrite find_existsb. split.
  - intros [fn H]. exists fn. rewrite H. reflexivity.
  - intros [fn [= H]]. exists fn. exact H.
Qed.

Lemma bisect_any functionIndex lineNumber :
  forall n left_ right_,
    Z.to_nat (right_ - left_ + 1) <= n ->
    (0 <= left_)%Z -> (right_ < Z.of_nat (length functionIndex))%Z ->
    exists result,
      bisect functionIndex lineNumber left_ right_ = JS.Return result /\
      forall fn, result = Some fn ->
        In fn functionIndex /\ atLine lineNumber fn = true.
Proof.
  induction n as [| n IH]; intros l r Hn Hl Hr;
    rewrite bisect_step; destruct (Z_le_dec l r) as [Hle | Hgt];
    try lia;
    try (exists None; split; [reflexivity | discriminate]).
  cbv zeta.
  assert (Hmid : (l <= (l + r) / 2 <= r)%Z).
  { pose proof (Z.div_mod (l + r) 2 ltac:(lia)).
    pose proof (Z.mod_pos_bound (l + r) 2 ltac:(lia)). lia. }
  set (mid := ((l + r) / 2)%Z) in *.
  unfold at_. destruct (Z.ltb_spec mid 0) as [Hneg | _]; [lia |].
  destruct (nth_error functionIndex (Z.to_nat mid)) as [current |] eqn:Hcur.
  2: { apply nth_error_None in Hcur. lia. }
  destruct (atLine lineNumber current) eqn:Hm.
  - exists (Some current). split; [reflexivity |].
    intros fn [= <-]. split; [eapply nth_error_In; exact Hcur | exact Hm].
  - destruct (JS.lt _ lineNumber); apply IH; lia.
Qed.

(** On any array of entries, sorted or not, [findFunctionByLineNumber]
    returns without reading outside the array, and an entry it returns is an
    entry of the array at the searched line. *)
Theorem findFunctionByLineNumber_any_index functionIndex lineNumber :
  exists result,
    findFunctionByLineNumber functionIndex lineNumber = JS.Return result /\
    forall fn, result = Some fn ->
      In fn functionIndex /\ atLine lineNumber fn = true.
Proof.
  unfold findFunctionByLineNumber. cbv zeta.
  apply (bisect_any _ _ (length functionIndex)); lia.
Qed.

(** *** searchFunctions *)

(** [String.prototype.toLowerCase] on the 8-bit characters: the letters A to
    Z and the accented capitals 192 to 222 (the sign 215 apart) move up by
    32. *)
Definition lowerChar (c : ascii) : ascii :=
  let n := nat_of_ascii c in
  if (Nat.leb 65 n && Nat.leb n 90) ||
     (Nat.leb 192 n && Nat.leb n 222 && negb (Nat.eqb n 215))
  then ascii_of_nat (n + 32)
  else c.

Definition toLowerCase (s : list ascii) : list ascii := map lowerChar s.

(** [s.includes(needle)] *)
Fixpoint includes (s needle : list ascii) : bool :=
  match literal needle s with
  | Some _ => true
  | None =>
      match s with
      | [] => false
      | _ :: rest => includes rest needle
      end
  end.

(** The index is an array and the search term a string; the guards of the
    source for other values are not modelled. *)
Definition searchFunctions (functionIndex : list entry) (searchTerm : string)
  : list entry :=
  let term := list_ascii_of_string searchTerm in
  if String.eqb searchTerm "" ||
     match trim term with [] => true | _ => false end
  then functionIndex
  else
    let lowerSearch := trim (toLowerCase term) in
    List.filter
      (fun fn =>
         includes (toLowerCase (list_ascii_of_string (name fn))) lowerSearch)
      functionIndex.

Lemma includes_spec s needle :
  includes s needle = true <-> exists pre post, s = pre ++ needle ++ post.
Proof.
  induction s as [| c s IH].
  - simpl. destruct (literal needle []) as [rest |] eqn:Hl.
    + apply literal_spec in Hl. split; [| reflexivity].
      intros _. exists [], rest. exact Hl.
    + split; [discriminate |]. intros (pre & post & H).
      destruct pre; [| discriminate]. simpl in H.
      assert (Hs : literal needle [] = Some post) by (apply literal_spec; exact H).
      congruence.
  - cbn [includes]. destruct (literal needle (c :: s)) as [rest |] eqn:Hl.
    + apply literal_spec in Hl. split; [| reflexivity].
      intros _. exists [], rest. exact Hl.
    + rewrite IH. split.
      * intros (pre & post & ->). exists (c :: pre), post. reflexivity.
      * intros (pre & post & H). destruct pre as [| c' pre].
        -- simpl in H.
           assert (Hs : literal needle (c :: s) = Some post)
             by (apply literal_spec; exact H).
           congruence.
        -- injection H as _ ->. exists pre, post. reflexivity.
Qed.

Lemma trimStart_nil s :
  trimStart s = [] <-> forallb isWhiteSpace s = true.
Proof.
  induction s as [| c s IH]; simpl; [tauto |].
  destruct (isWhiteSpace c); simpl; [exact IH |].
  split; discriminate.
Qed.

Lemma trimStart_all s :
  forallb isWhiteSpace (trimStart s) = true -> trimStart s = [].
Proof.
  induction s as [| c s IH]; simpl; [reflexivity |].
  destruct (isWhiteSpace c) eqn:Hc; [exact IH |].
  simpl. rewrite Hc. discriminate.
Qed.

Lemma forallb_rev {A} (p : A -> bool) l : forallb p (rev l) = forallb p l.
Proof.
  induction l as [| a l IH]; [reflexivity |].
  simpl. rewrite forallb_app, IH. simpl.
  destruct (p a), (forallb p l); reflexivity.
Qed.

(** A string trims to the empty string exactly when it is made of white
    space. *)
Lemma trim_nil s : trim s = [] <-> forallb isWhiteSpace s = true.
Proof.
  unfold trim. split.
  - intros H. apply (f_equal (@rev ascii)) in H.
    rewrite rev_involutive in H. simpl in H.
    apply trimStart_nil in H. rewrite forallb_rev in H.
    apply trimStart_all in H. apply trimStart_nil. exact H.
  - intros H%trimStart_nil. rewrite H. reflexivity.
Qed.

Lemma isWhiteSpace_lowerChar c : isWhiteSpace (lowerChar c) = isWhiteSpace c.
Proof.
  destruct c as [[] [] [] [] [] [] [] []]; reflexivity.
Qed.

Lemma blank_toLowerCase s :
  forallb isWhiteSpace (toLowerCase s) = forallb isWhiteSpace s.
Proof.
  induction s as [| c s IH]; [reflexivity |].
  simpl. rewrite isWhiteSpace_lowerChar, IH. reflexivity.
Qed.

Lemma filter_In_sorted (p : entry -> bool) l :
  StronglySorted before l -> StronglySorted before (List.filter p l).
Proof.
  induction 1 as [| a l Hs IH Hall]; simpl; [constructor |].
  destruct (p a); [| exact IH].
  constructor; [exact IH |].
  rewrite Forall_forall in *. intros x Hx%list_elem_of_In.
  apply filter_In in Hx as [Hx _]. apply Hall, list_elem_of_In, Hx.
Qed.

Lemma searchFunctions_blank functionIndex searchTerm :
  trim (list_ascii_of_string searchTerm) = [] ->
  searchFunctions functionIndex searchTerm = functionIndex.
Proof.
  intros H. unfold searchFunctions. cbv zeta. rewrite H.
  rewrite orb_true_r. reflexivity.
Qed.

Lemma searchFunctions_filter functionIndex searchTerm :
  trim (list_ascii_of_string searchTerm) <> [] ->
  searchFunctions functionIndex searchTerm =
  List.filter
    (fun fn =>
       includes (toLowerCase (list_ascii_of_string (name fn)))
         (trim (toLowerCase (list_ascii_of_string searchTerm))))
    functionIndex.
Proof.
  intros H. unfold searchFunctions. cbv zeta.
  destruct (String.eqb_spec searchTerm "") as [-> | _];
    [elim H; reflexivity |].
  destruct (trim (list_ascii_of_string searchTerm)); [contradiction |].
  reflexivity.
Qed.

(** A blank search term (empty or white space only) selects the whole
    index.  Any other term selects exactly the entries whose name contains
    the trimmed term, letter case apart, each as often as the index holds
    it and in the order of the index: the result is the index filtered by
    any test that decides that containment. *)
Theorem searchFunctions_selects functionIndex searchTerm :
  let term := list_ascii_of_string searchTerm in
  let contains fn :=
    exists pre post,
      toLowerCase (list_ascii_of_string (name fn)) =
      pre ++ trim (toLowerCase term) ++ post in
  (forallb isWhiteSpace term = true ->
   searchFunctions functionIndex searchTerm = functionIndex) /\
  (forallb isWhiteSpace term = false ->
   (forall selects : entry -> bool,
      (forall fn, selects fn = true <-> contains fn) ->
      searchFunctions functionIndex searchTerm =
      List.filter selects functionIndex) /\
   (forall fn,
      In fn (searchFunctions functionIndex searchTerm) <->
      In fn functionIndex /\ contains fn)).
Proof.
  intros term contains. split.
  - intros H%trim_nil. apply searchFunctions_blank. exact H.
  - intros H.
    assert (Hterm : trim (list_ascii_of_string searchTerm) <> [])
      by (intros Hnil%trim_nil; fold term in Hnil; congruence).
    rewrite (searchFunctions_filter _ _ Hterm). split.
    + intros selects Hselects. apply List.filter_ext. intros fn.
      apply eq_true_iff_eq. rewrite Hselects, includes_spec. reflexivity.
    + intros fn. rewrite filter_In, includes_spec. reflexivity.
Qed.

Example searchFunctions_sample :
  let functionIndex :=
    [ {| name := "DC Voltage"; lineNumber := 2; columnStart := 4 |};
      {| name := "Resistance"; lineNumber := 9; columnStart := 4 |};
      {| name := "AC voltage"; lineNumber := 17; columnStart := 4 |};
      {| name := "DC Voltage"; lineNumber := 2; columnStart := 4 |} ] in
  searchFunctions functionIndex " VOLT " =
    [ {| name := "DC Voltage"; lineNumber := 2; columnStart := 4 |};
      {| name := "AC voltage"; lineNumber := 17; columnStart := 4 |};
      {| name := "DC Voltage"; lineNumber := 2; columnStart := 4 |} ] /\
  searchFunctions functionIndex "  " = functionIndex /\
  searchFunctions functionIndex "current" = [].
Proof. repeat split; reflexivity. Qed.

(** The letter case of the search term does not matter: two terms that are
    equal once in lower case select the same entries. *)
Theorem searchFunctions_case_insensitive functionIndex term1 term2 :
  toLowerCase (list_ascii_of_string term1) =
  toLowerCase (list_ascii_of_string term2) ->
  searchFunctions functionIndex term1 = searchFunctions functionIndex term2.
Proof.
  intros Heq.
  pose proof (blank_toLowerCase (list_ascii_of_string term1)) as H1.
  pose proof (blank_toLowerCase (list_ascii_of_string term2)) as H2.
  rewrite Heq in H1.
  destruct (forallb isWhiteSpace (list_ascii_of_string term1)) eqn:Hb1.
  - rewrite !searchFunctions_blank; [reflexivity | |];
      apply trim_nil; congruence.
  - rewrite !searchFunctions_filter.
    + rewrite Heq. reflexivity.
    + intros Hn%trim_nil. congruence.
    + intros Hn%trim_nil. congruence.
Qed.

Lemma searchFunctions_case_insensitive_witness :
  toLowerCase (list_ascii_of_string "VOLTage") =
  toLowerCase (list_ascii_of_string "voltAGE") /\
  searchFunctions (extractFunctionLineNumbers sampleDocument) "VOLTage" =
  searchFunctions (extractFunctionLineNumbers sampleDocument) "voltAGE".
Proof.
  split; [reflexivity |].
  apply (searchFunctions_case_insensitive _ "VOLTage" "voltAGE").
  reflexivity.
Defined.

Lemma searchFunctions_sorted functionIndex searchTerm :
  StronglySorted before functionIndex ->
  StronglySorted before (searchFunctions functionIndex searchTerm).
Proof.
  intros Hs. unfold searchFunctions. cbv zeta.
  destruct (_ || _); [exact Hs | apply filter_In_sorted; exact Hs].
Qed.

Lemma searchFunctions_In functionIndex searchTerm fn :
  In fn (searchFunctions functionIndex searchTerm) -> In fn functionIndex.
Proof.
  unfold searchFunctions. cbv zeta.
  destruct (_ || _); [trivial |]. intros H%filter_In. apply H.
Qed.

(** The result of a search in the index of a text can be searched by line:
    it is still sorted, and [findFunctionByLineNumber] finds in it exactly
    the entries that it finds in the whole index and that the search
    selected. *)
Theorem findFunctionByLineNumber_after_search xmlString searchTerm lineNumber :
  let functionIndex := extractFunctionLineNumbers xmlString in
  let selected := searchFunctions functionIndex searchTerm in
  StronglySorted before selected /\
  forall fn,
    findFunctionByLineNumber selected lineNumber = JS.Return (Some fn) <->
    findFunctionByLineNumber functionIndex lineNumber = JS.Return (Some fn) /\
    In fn selected.
Proof.
  intros functionIndex selected.
  pose proof (extractFunctionLineNumbers_sorted xmlString) as Hsorted.
  fold functionIndex in Hsorted.
  pose proof (searchFunctions_sorted _ searchTerm Hsorted) as Hsel.
  fold selected in Hsel.
  split; [exact Hsel |]. intros fn.
  rewrite !findFunctionByLineNumber_sorted by assumption.
  unfold entryAtLine. split.
  - intros [= H]. apply find_some in H as [Hin Hat].
    split; [| exact Hin]. f_equal.
    apply entryAtLine_Some; [exact Hsorted | | exact Hat].
    apply (searchFunctions_In _ searchTerm). exact Hin.
  - intros [[= H] Hin]. apply find_some in H as [_ Hat].
    f_equal. apply entryAtLine_Some; assumption.
Qed.

(** *** Where the entries point *)

Lemma occursAt_fits line col content :
  occursAt line col content ->
  col + length openTag + length content + length closeTag <= length line /\
  0 < length content.
Proof.
  intros (rest & Hskip & Hne & _).
  apply (f_equal (@length ascii)) in Hskip.
  rewrite length_skipn, !length_app in Hskip.
  destruct content; [contradiction |]. simpl in *. lia.
Qed.

(** Every entry of the index points into the text: its line number is
    between 1 and the number of lines, and the tag it stands for, from its
    column on, fits in that line.  The index has at most one entry per
    line. *)
Theorem index_entries_point_into_text xmlString :
  let text := list_ascii_of_string xmlString in
  let functionIndex := extractFunctionLineNumbers xmlString in
  length functionIndex <= length (lines text) /\
  forall fn, In fn functionIndex ->
    1 <= lineNumber fn <= length (lines text) /\
    exists line,
      nth_error (lines text) (lineNumber fn - 1) = Some line /\
      columnStart fn + length openTag + 1 + length closeTag <=
      length (stripCR line).
Proof.
  intros text functionIndex. split.
  - unfold functionIndex. rewrite extractFunctionLineNumbers_lines. fold text.
    generalize 1. induction (lines text) as [| l ls IH]; intros n; [simpl; lia |].
    cbn [entriesOf]. rewrite length_app. specialize (IH (S n)).
    unfold entryOfLine. destruct (regexMatch (stripCR l)); simpl in *; lia.
  - intros fn Hin. unfold functionIndex in Hin.
    rewrite extractFunctionLineNumbers_lines, In_entriesOf in Hin. fold text in Hin.
    destruct Hin as (i & line & Hnth & (Hn & content & [Hocc _] & _)%In_entryOfLine).
    assert (Hi : i < length (lines text))
      by (apply nth_error_Some; congruence).
    split; [lia |]. exists line. rewrite Hn.
    replace (1 + i - 1) with i by lia. split; [exact Hnth |].
    apply occursAt_fits in Hocc. lia.
Qed.

End XmlLineIndex.

(** ** templateExtractor.ts *)

Module TemplateExtractor.
Import JS.

(** *** Evaluation of object literals

    A computation reads the count of identifiers generated so far, returns
    or throws, and leaves the new count.  [generateMOXUUID] is the only
    computation that changes the count. *)

Definition M (A : Type) : Type := nat -> outcome A * nat.

Definition ret {A} (a : A) : M A := fun k => (Return a, k).

Definition throw {A} : M A := fun k => (Throw, k).

Definition bind {A B} (m : M A) (f : A -> M B) : M B :=
  fun k =>
    match m k with
    | (Return a, k') => f a k'
    | (Throw, k') => (Throw, k')
    end.

Notation "x <- m ;; f" := (bind m (fun x => f))
  (at level 100, m at next level, right associativity).

(** [props[key]] in an object's own properties. *)
Fixpoint lookup (key : string) (props : list (string * value)) : option value :=
  match props with
  | [] => None
  | (k, v) :: rest => if String.eqb k key then Some v else lookup key rest
  end.

(** [o.key] as a value: [undefined] when [o] has no such property. None of
    the property names read in this module is a property of a string, number,
    boolean or array. *)
Definition field (o : value) (key : string) : value :=
  match o with
  | Obj props =>
      match lookup key props with
      | Some v => v
      | None => Undefined
      end
  | _ => Undefined
  end.

(** The expression [o.key]: a TypeError when [o] is [undefined] or [null]. *)
Definition read (o : value) (key : string) : M value :=
  match o with
  | Undefined | Null => throw
  | _ => ret (field o key)
  end.

(** The elements of an array. *)
Definition items (a : value) : list value :=
  match a with
  | Arr l => l
  | _ => []
  end.

(** An object literal [{ key1: e1, key2: e2, ... }]: the property values are
    evaluated in the order in which they are written. *)
Fixpoint properties (literal : list (string * M value))
  : M (list (string * value)) :=
  match literal with
  | [] => ret []
  | (key, e) :: rest =>
      v <- e ;;
      props <- properties rest ;;
      ret ((key, v) :: props)
  end.

Definition object (literal : list (string * M value)) : M value :=
  props <- properties literal ;;
  ret (Obj props).

Fixpoint mapFrom (callback : value -> nat -> M value) (idx : nat)
  (l : list value) : M (list value) :=
  match l with
  | [] => ret []
  | x :: rest =>
      y <- callback x idx ;;
      ys <- mapFrom callback (S idx) rest ;;
      ret (y :: ys)
  end.

(** [a.map(callback)], the callback receiving the element and its index:
    a TypeError when [a] is not an array. *)
Definition arrayMap (a : value) (callback : value -> nat -> M value)
  : M value :=
  match a with
  | Arr l => ys <- mapFrom callback 0 l ;; ret (Arr ys)
  | _ => throw
  end.

(** The content fields of the four levels, in the order of the source. *)
Definition functionFields : list string :=
  ["functionname"; "modifier"; "properties"; "format"; "isoutput"].

Definition rangeFields : list string :=
  ["rangename"; "rangeid"; "properties"; "autoassign"].

Definition parameterFields : list string :=
  ["lowerlimit"; "upperlimit"; "unitofmeasure"; "unitsymbol"; "isbipolar";
   "paramname"].

Definition specificationFields : list string :=
  ["calinterval"; "Specialcal"; "AssetNum"; "spectype"; "unitofmeasure";
   "unitsymbol"; "fullscale"; "iv_pct"; "iv_pct_hi"; "iv_ppm"; "fs_pct";
   "fs_pct_hi"; "fs_ppm"; "floor"; "floor_hi"; "db"; "dbtype"; "calcdesc";
   "calcstring"; "operand"].

(** [key: o.key] for each of the keys. *)
Definition copyOf (o : value) (keys : list string) : list (string * M value) :=
  map (fun key => (key, read o key)) keys.

(** *** extractFunctionTemplate *)

Definition extractSpecificationTemplate (spec : value) : M value :=
  object (copyOf spec specificationFields).

Definition extractParameterTemplate (param : value) : M value :=
  object (copyOf param parameterFields).

Definition extractRangeTemplate (range : value) : M value :=
  object
    (copyOf range rangeFields ++
     [ ("parameter",
        parameter <- read range "parameter" ;;
        extractParameterTemplate parameter);
       ("specifications",
        specifications <- read range "specifications" ;;
        arrayMap specifications (fun spec _ => extractSpecificationTemplate spec)) ]).

Definition extractFunctionTemplate (func : value) : M value :=
  object
    (copyOf func functionFields ++
     [ ("ranges",
        ranges <- read func "ranges" ;;
        arrayMap ranges (fun range _ => extractRangeTemplate range)) ]).

(** *** createFunctionFromTemplate *)

Section Create.

(** The random bytes that the [k]-th call of [generateMOXUUID] draws. *)
Variable randomBytes : nat -> list N.

Definition uuid (k : nat) : string :=
  UuidGenerator.generateMOXUUID (randomBytes k).

(** The call [generateMOXUUID()]: it returns the next identifier. *)
Definition callGenerateMOXUUID : M value :=
  fun k => (Return (Str (uuid k)), S k).

Definition createSpecificationFromTemplate (template : value) (sequence : value)
  : M value :=
  object
    ([ ("pui", callGenerateMOXUUID);
       ("dui", callGenerateMOXUUID);
       ("sequence", ret sequence) ] ++
     copyOf template specificationFields).

Definition createParameterFromTemplate (template : value) : M value :=
  object
    [ ("pui", callGenerateMOXUUID);
      ("dui", callGenerateMOXUUID);
      ("sequence", ret (Num (Fin 0)));
      ("lowerlimit", read template "lowerlimit");
      ("upperlimit", read template "upperlimit");
      ("unitofmeasure", read template "unitofmeasure");
      ("unitsymbol", read template "unitsymbol");
      ("isbipolar", read template "isbipolar");
      ("noteidlist", ret (Str ""));
      ("paramname", read template "paramname");
      ("verified", ret (Bool false));
      ("review", ret (Bool false)) ].

Definition createRangeFromTemplate (template : value) (sequence : value)
  : M value :=
  object
    ([ ("pui", callGenerateMOXUUID);
       ("dui", callGenerateMOXUUID);
       ("sequence", ret sequence) ] ++
     copyOf template rangeFields ++
     [ ("noteidlist", ret (Str ""));
       ("verified", ret (Bool false));
       ("review", ret (Bool false));
       ("parameter",
        parameter <- read template "parameter" ;;
        createParameterFromTemplate parameter);
       ("specifications",
        specifications <- read template "specifications" ;;
        arrayMap specifications
          (fun specTemplate idx =>
             createSpecificationFromTemplate specTemplate (Num (of_nat idx)))) ]).

Definition createFunctionFromTemplate (template : value) (sequence : value)
  : M value :=
  object
    ([ ("pui", callGenerateMOXUUID);
       ("dui", callGenerateMOXUUID);
       ("sequence", ret sequence) ] ++
     copyOf template functionFields ++
     [ ("noteidlist", ret (Str ""));
       ("verified", ret (Bool false));
       ("review", ret (Bool false));
       ("ranges",
        ranges <- read template "ranges" ;;
        arrayMap ranges
          (fun rangeTemplate idx =>
             createRangeFromTemplate rangeTemplate (Num (of_nat idx))));
       ("_uiExpanded", ret (Bool false));
       ("_uiStatus", ret (Str "unreviewed")) ]).

End Create.

(** One of [PREDEFINED_TEMPLATES]. *)
Definition voltage_dc : value :=
  Obj [ ("functionname", Str "Voltage, DC");
        ("modifier", Null);
        ("properties", Str "");
        ("format", Str "");
        ("isoutput", Bool false);
        ("ranges", Arr [
          Obj [ ("rangename", Str "Default Range");
                ("rangeid", Str "");
                ("properties", Str "");
                ("autoassign", Bool true);
                ("parameter",
                 Obj [ ("lowerlimit", Num (Fin 0));
                       ("upperlimit", Num (Fin 100));
                       ("unitofmeasure", Str "volt");
                       ("unitsymbol", Str "V");
                       ("isbipolar", Bool true);
                       ("paramname", Str "") ]);
                ("specifications", Arr [
                  Obj [ ("calinterval", Num (Fin 365));
                        ("Specialcal", Str "");
                        ("AssetNum", Str "");
                        ("spectype", Str "Accuracy");
                        ("unitofmeasure", Str "volt");
                        ("unitsymbol", Str "V");
                        ("fullscale", Num (Fin 0));
                        ("iv_pct", Num (Fin (1 # 10)));
                        ("iv_pct_hi", Num (Fin 0));
                        ("iv_ppm", Num (Fin 0));
                        ("fs_pct", Num (Fin 0));
                        ("fs_pct_hi", Num (Fin 0));
                        ("fs_ppm", Num (Fin 0));
                        ("floor", Num (Fin 0));
                        ("floor_hi", Num (Fin 0));
                        ("db", Num (Fin 0));
                        ("dbtype", Num (Fin 0));
                        ("calcdesc", Str "");
                        ("calcstring", Str "");
                        ("operand", Str "PlusMinus") ] ]) ] ]) ].

(** *** The hierarchy of a function and of a template *)

Definition isObject (v : value) : Prop := exists props, v = Obj props.

(** A range, or a range template: an object with a [parameter] object and a
    [specifications] array of objects.  The other properties are free. *)
Definition rangeShape (range : value) : Prop :=
  isObject range /\ isObject (field range "parameter") /\
  exists specifications,
    field range "specifications" = Arr specifications /\
    Forall isObject specifications.

(** A function, or a function template: an object with a [ranges] array of
    ranges. *)
Definition functionShape (func : value) : Prop :=
  isObject func /\
  exists ranges, field func "ranges" = Arr ranges /\ Forall rangeShape ranges.

(** The objects of a function or template, level by level: the function,
    each range, its parameter and its specifications. *)
Definition levels (func : value) : list value :=
  func ::
  flat_map (fun range =>
              range :: field range "parameter" ::
              items (field range "specifications"))
           (items (field func "ranges")).

(** [key in o], for an object. *)
Definition hasProperty (o : value) (key : string) : Prop :=
  match o with
  | Obj props => In key (map fst props)
  | _ => False
  end.

(** The identifier, audit and view-only fields. *)
Definition strippedFields : list string :=
  ["pui"; "dui"; "verified"; "review"; "noteidlist"; "_uiExpanded";
   "_uiStatus"].

(** The fields [keys] have the same values in [copy] as in [original]. *)
Definition sameFields (keys : list string) (original copy : value) : Prop :=
  Forall (fun key => field copy key = field original key) keys.

Definition rangeCopied (range template : value) : Prop :=
  sameFields rangeFields range template /\
  sameFields parameterFields
    (field range "parameter") (field template "parameter") /\
  Forall2 (sameFields specificationFields)
    (items (field range "specifications"))
    (items (field template "specifications")).

Definition functionCopied (func template : value) : Prop :=
  sameFields functionFields func template /\
  Forall2 rangeCopied
    (items (field func "ranges")) (items (field template "ranges")).

(** What [extractFunctionTemplate] returns, as a function of the entity. *)
Definition pick (o : value) (keys : list string) : list (string * value) :=
  map (fun key => (key, field o key)) keys.

Definition specificationTemplateOf (spec : value) : value :=
  Obj (pick spec specificationFields).

Definition parameterTemplateOf (param : value) : value :=
  Obj (pick param parameterFields).

Definition rangeTemplateOf (range : value) : value :=
  Obj (pick range rangeFields ++
       [ ("parameter", parameterTemplateOf (field range "parameter"));
         ("specifications",
          Arr (map specificationTemplateOf
                 (items (field range "specifications")))) ]).

Definition functionTemplateOf (func : value) : value :=
  Obj (pick func functionFields ++
       [ ("ranges", Arr (map rangeTemplateOf (items (field func "ranges")))) ]).

(** *** Running the extraction *)

Lemma bind_run {A B} (m : M A) (f : A -> M B) k :
  bind m f k =
  match m k with
  | (Return a, k') => f a k'
  | (Throw, k') => (Throw, k')
  end.
Proof. reflexivity. Qed.

Lemma properties_cons key e rest k :
  properties ((key, e) :: rest) k =
  match e k with
  | (Return v, k') =>
      match properties rest k' with
      | (Return props, k'') => (Return ((key, v) :: props), k'')
      | (Throw, k'') => (Throw, k'')
      end
  | (Throw, k') => (Throw, k')
  end.
Proof.
  cbn [properties]. rewrite bind_run. destruct (e k) as [[v |] k']; [| reflexivity].
  rewrite bind_run. destruct (properties rest k') as [[props |] k'']; reflexivity.
Qed.

Lemma properties_nil k : properties [] k = (Return [], k).
Proof. reflexivity. Qed.

Lemma properties_app l1 l2 k :
  properties (l1 ++ l2) k =
  match properties l1 k with
  | (Return p1, k1) =>
      match properties l2 k1 with
      | (Return p2, k2) => (Return (p1 ++ p2), k2)
      | (Throw, k2) => (Throw, k2)
      end
  | (Throw, k1) => (Throw, k1)
  end.
Proof.
  revert k. induction l1 as [| [key e] l1 IH]; intros k.
  - rewrite properties_nil. cbn [app].
    destruct (properties l2 k) as [[p2 |] k2]; reflexivity.
  - cbn [app]. rewrite !properties_cons.
    destruct (e k) as [[v |] k']; [| reflexivity].
    rewrite IH.
    destruct (properties l1 k') as [[p1 |] k1]; [| reflexivity].
    destruct (properties l2 k1) as [[p2 |] k2]; reflexivity.
Qed.

Lemma properties_copyOf props keys k :
  properties (copyOf (Obj props) keys) k = (Return (pick (Obj props) keys), k).
Proof.
  unfold copyOf, pick.
  induction keys as [| key keys IH]; [reflexivity |].
  cbn [map]. rewrite properties_cons.
  change (read (Obj props) key k) with (Return (field (Obj props) key), k).
  cbv iota beta. rewrite IH. reflexivity.
Qed.

Lemma object_run literal k :
  object literal k =
  match properties literal k with
  | (Return props, k') => (Return (Obj props), k')
  | (Throw, k') => (Throw, k')
  end.
Proof. reflexivity. Qed.

Lemma mapFrom_cons callback idx x rest k :
  mapFrom callback idx (x :: rest) k =
  match callback x idx k with
  | (Return y, k') =>
      match mapFrom callback (S idx) rest k' with
      | (Return ys, k'') => (Return (y :: ys), k'')
      | (Throw, k'') => (Throw, k'')
      end
  | (Throw, k') => (Throw, k')
  end.
Proof.
  cbn [mapFrom]. rewrite bind_run.
  destruct (callback x idx k) as [[y |] k']; [| reflexivity].
  rewrite bind_run.
  destruct (mapFrom callback (S idx) rest k') as [[ys |] k'']; reflexivity.
Qed.

Lemma arrayMap_run l callback k :
  arrayMap (Arr l) callback k =
  match mapFrom callback 0 l k with
  | (Return ys, k') => (Return (Arr ys), k')
  | (Throw, k') => (Throw, k')
  end.
Proof. reflexivity. Qed.

Lemma mapFrom_pure (callback : value -> nat -> M value) (g : value -> value)
  (P : value -> Prop) l :
  (forall x idx k, P x -> callback x idx k = (Return (g x), k)) ->
  Forall P l ->
  forall idx k, mapFrom callback idx l k = (Return (map g l), k).
Proof.
  intros Hcb Hall. induction Hall as [| x l Hx Hl IH]; intros idx k.
  - reflexivity.
  - rewrite mapFrom_cons, (Hcb x idx k Hx), IH. reflexivity.
Qed.

Lemma extractSpecificationTemplate_run spec k :
  isObject spec ->
  extractSpecificationTemplate spec k = (Return (specificationTemplateOf spec), k).
Proof.
  intros [props ->]. unfold extractSpecificationTemplate.
  rewrite object_run, properties_copyOf. reflexivity.
Qed.

Lemma extractParameterTemplate_run param k :
  isObject param ->
  extractParameterTemplate param k = (Return (parameterTemplateOf param), k).
Proof.
  intros [props ->]. unfold extractParameterTemplate.
  rewrite object_run, properties_copyOf. reflexivity.
Qed.

Lemma extractRangeTemplate_run range k :
  rangeShape range ->
  extractRangeTemplate range k = (Return (rangeTemplateOf range), k).
Proof.
  intros ([props ->] & Hparam & specs & Hspecs & Hall).
  unfold extractRangeTemplate.
  rewrite object_run, properties_app, properties_copyOf.
  rewrite properties_cons, bind_run.
  change (read (Obj props) "parameter" k)
    with (Return (field (Obj props) "parameter"), k).
  cbv iota beta. rewrite (extractParameterTemplate_run _ _ Hparam).
  rewrite properties_cons, bind_run.
  change (read (Obj props) "specifications" k)
    with (Return (field (Obj props) "specifications"), k).
  cbv iota beta. rewrite Hspecs, arrayMap_run.
  rewrite (mapFrom_pure _ specificationTemplateOf isObject)
    by (auto using extractSpecificationTemplate_run).
  unfold rangeTemplateOf. rewrite Hspecs. reflexivity.
Qed.

Lemma extractFunctionTemplate_run func k :
  functionShape func ->
  extractFunctionTemplate func k = (Return (functionTemplateOf func), k).
Proof.
  intros ([props ->] & ranges & Hranges & Hall).
  unfold extractFunctionTemplate.
  rewrite object_run, properties_app, properties_copyOf.
  rewrite properties_cons, bind_run.
  change (read (Obj props) "ranges" k)
    with (Return (field (Obj props) "ranges"), k).
  cbv iota beta. rewrite Hranges, arrayMap_run.
  rewrite (mapFrom_pure _ rangeTemplateOf rangeShape)
    by (auto using extractRangeTemplate_run).
  unfold functionTemplateOf. rewrite Hranges. reflexivity.
Qed.

(** *** The template has the content and nothing else *)

Definition disjointb (l1 l2 : list string) : bool :=
  forallb (fun key => negb (existsb (String.eqb key) l2)) l1.

Lemma disjointb_spec l1 l2 :
  disjointb l1 l2 = true -> forall key, In key l1 -> ~ In key l2.
Proof.
  unfold disjointb. rewrite forallb_forall. intros H key H1 H2.
  specialize (H key H1). apply negb_true_iff in H.
  assert (Hex : existsb (String.eqb key) l2 = true).
  { apply existsb_exists. exists key. split; [exact H2 | apply String.eqb_refl]. }
  congruence.
Qed.

Lemma keys_pick o keys extra :
  map fst (pick o keys ++ extra) = keys ++ map fst extra.
Proof.
  unfold pick. rewrite map_app, map_map. simpl. rewrite map_id. reflexivity.
Qed.

Definition stripped (o : value) : Prop :=
  forall key, In key strippedFields -> ~ hasProperty o key.

Lemma stripped_pick o keys extra :
  disjointb strippedFields (keys ++ map fst extra) = true ->
  stripped (Obj (pick o keys ++ extra)).
Proof.
  intros H key Hkey. unfold hasProperty. rewrite keys_pick.
  apply (disjointb_spec _ _ H key Hkey).
Qed.

Lemma stripped_specification spec : stripped (specificationTemplateOf spec).
Proof.
  unfold specificationTemplateOf.
  rewrite <- (app_nil_r (pick spec specificationFields)).
  apply stripped_pick. reflexivity.
Qed.

Lemma stripped_parameter param : stripped (parameterTemplateOf param).
Proof.
  unfold parameterTemplateOf.
  rewrite <- (app_nil_r (pick param parameterFields)).
  apply stripped_pick. reflexivity.
Qed.

Lemma stripped_range range : stripped (rangeTemplateOf range).
Proof. apply stripped_pick. reflexivity. Qed.

Lemma stripped_function func : stripped (functionTemplateOf func).
Proof. apply stripped_pick. reflexivity. Qed.

Lemma stripped_levels func : Forall stripped (levels (functionTemplateOf func)).
Proof.
  unfold levels. constructor; [apply stripped_function |].
  change (field (functionTemplateOf func) "ranges")
    with (Arr (map rangeTemplateOf (items (field func "ranges")))).
  cbn [items].
  induction (items (field func "ranges")) as [| range ranges IH]; simpl.
  - constructor.
  - constructor; [apply stripped_range |].
    constructor; [apply stripped_parameter |].
    apply Forall_app. split; [| exact IH].
    apply Forall_map, Forall_forall. intros spec _.
    apply stripped_specification.
Qed.

Lemma sameFields_specification spec :
  sameFields specificationFields spec (specificationTemplateOf spec).
Proof. repeat constructor. Qed.

Lemma sameFields_parameter param :
  sameFields parameterFields param (parameterTemplateOf param).
Proof. repeat constructor. Qed.

Lemma rangeCopied_template range : rangeCopied range (rangeTemplateOf range).
Proof.
  split; [repeat constructor |]. split.
  - apply sameFields_parameter.
  - change (field (rangeTemplateOf range) "specifications")
      with (Arr (map specificationTemplateOf
                   (items (field range "specifications")))).
    cbn [items].
    induction (items (field range "specifications")) as [| spec specs IH];
      constructor; [apply sameFields_specification | exact IH].
Qed.

Lemma functionCopied_template func :
  functionCopied func (functionTemplateOf func).
Proof.
  split; [repeat constructor |].
  change (field (functionTemplateOf func) "ranges")
    with (Arr (map rangeTemplateOf (items (field func "ranges")))).
  cbn [items].
  induction (items (field func "ranges")) as [| range ranges IH];
    constructor; [apply rangeCopied_template | exact IH].
Qed.

(** The function of templateExtractor.test.ts. *)
Definition testFunction : value :=
  Obj [ ("pui", Str "{FUNC-PUI}");
        ("dui", Str "{FUNC-DUI}");
        ("sequence", Num (Fin 0));
        ("functionname", Str "Test Function");
        ("modifier", Null);
        ("properties", Str "");
        ("format", Str "");
        ("isoutput", Bool false);
        ("noteidlist", Str "");
        ("verified", Bool false);
        ("review", Bool false);
        ("ranges", Arr [
          Obj [ ("pui", Str "{RANGE-PUI}");
                ("dui", Str "{RANGE-DUI}");
                ("sequence", Num (Fin 0));
                ("rangename", Str "Test Range");
                ("rangeid", Str "");
                ("properties", Str "");
                ("autoassign", Bool true);
                ("noteidlist", Str "");
                ("verified", Bool false);
                ("review", Bool false);
                ("parameter",
                 Obj [ ("pui", Str "{PARAM-PUI}");
                       ("dui", Str "{PARAM-DUI}");
                       ("sequence", Num (Fin 0));
                       ("lowerlimit", Num (Fin 0));
                       ("upperlimit", Num (Fin 100));
                       ("unitofmeasure", Str "volt");
                       ("unitsymbol", Str "V");
                       ("isbipolar", Bool true);
                       ("noteidlist", Str "");
                       ("paramname", Str "");
                       ("verified", Bool false);
                       ("review", Bool false) ]);
                ("specifications", Arr [
                  Obj [ ("pui", Str "{SPEC-PUI}");
                        ("dui", Str "{SPEC-DUI}");
                        ("sequence", Num (Fin 0));
                        ("calinterval", Num (Fin 365));
                        ("Specialcal", Str "");
                        ("AssetNum", Str "");
                        ("spectype", Str "Accuracy");
                        ("unitofmeasure", Str "volt");
                        ("unitsymbol", Str "V");
                        ("fullscale", Num (Fin 0));
                        ("iv_pct", Num (Fin (1 # 10)));
                        ("iv_pct_hi", Num (Fin 0));
                        ("iv_ppm", Num (Fin 0));
                        ("fs_pct", Num (Fin 0));
                        ("fs_pct_hi", Num (Fin 0));
                        ("fs_ppm", Num (Fin 0));
                        ("floor", Num (Fin 0));
                        ("floor_hi", Num (Fin 0));
                        ("db", Num (Fin 0));
                        ("dbtype", Num (Fin 0));
                        ("calcdesc", Str "");
                        ("calcstring", Str "");
                        ("operand", Str "PlusMinus") ] ]) ] ]);
        ("_uiExpanded", Bool false);
        ("_uiStatus", Str "unreviewed") ].

Lemma functionShape_testFunction : functionShape testFunction.
Proof.
  split; [eexists; reflexivity |].
  eexists. split; [reflexivity |].
  repeat constructor; try (eexists; reflexivity).
  eexists. split; [reflexivity |].
  repeat constructor. eexists; reflexivity.
Qed.

(** The template of the test function is the pre-defined DC voltage
    template with the names of the test. *)
Example extract_testFunction :
  fst (extractFunctionTemplate testFunction 0) =
  Return
    (Obj [ ("functionname", Str "Test Function"); ("modifier", Null);
           ("properties", Str ""); ("format", Str "");
           ("isoutput", Bool false);
           ("ranges",
            Arr [ Obj [ ("rangename", Str "Test Range"); ("rangeid", Str "");
                        ("properties", Str ""); ("autoassign", Bool true);
                        ("parameter", field (hd Null (items (field voltage_dc "ranges"))) "parameter");
                        ("specifications",
                         field (hd Null (items (field voltage_dc "ranges")))
                           "specifications") ] ]) ]).
Proof. reflexivity. Qed.

(** C6. The template of a function holds none of the identifier, audit and
    view-only fields at any level (function, ranges, parameters,
    specifications), and every content field of every level with the value
    it has in the function.  The extraction returns, and generates no
    identifier. *)
Theorem extractFunctionTemplate_strips_and_copies func k :
  functionShape func ->
  exists template,
    extractFunctionTemplate func k = (Return template, k) /\
    Forall (fun o => forall key, In key strippedFields -> ~ hasProperty o key)
      (levels template) /\
    functionCopied func template.
Proof.
  intros Hshape. exists (functionTemplateOf func).
  split; [apply extractFunctionTemplate_run; exact Hshape |].
  split; [apply stripped_levels | apply functionCopied_template].
Qed.

Lemma extractFunctionTemplate_strips_and_copies_witness :
  functionShape testFunction /\
  exists template,
    extractFunctionTemplate testFunction 0 = (Return template, 0) /\
    Forall (fun o => forall key, In key strippedFields -> ~ hasProperty o key)
      (levels template) /\
    functionCopied testFunction template.
Proof.
  split; [exact functionShape_testFunction |].
  apply (extractFunctionTemplate_strips_and_copies testFunction 0).
  exact functionShape_testFunction.
Defined.

(** *** Instantiation draws every identifier from the generator *)

(** The identifiers of one object, of a range with its parameter and
    specifications, and of a function with its ranges. *)
Definition ids (o : value) : list value := [field o "pui"; field o "dui"].

Definition rangeIdentifiers (range : value) : list value :=
  ids range ++ ids (field range "parameter") ++
  flat_map ids (items (field range "specifications")).

Definition identifiers (func : value) : list value :=
  ids func ++ flat_map rangeIdentifiers (items (field func "ranges")).

Section Fresh.

Variable randomBytes : nat -> list N.

#[local] Abbreviation uuid := (uuid randomBytes).

(** The identifiers returned by the calls number [k] to [k' - 1]. *)
Definition generated (k k' : nat) : list value :=
  map (fun i => Str (uuid i)) (seq k (k' - k)).

Lemma generated_app k k' k'' :
  k <= k' -> k' <= k'' ->
  generated k k' ++ generated k' k'' = generated k k''.
Proof.
  intros H1 H2. unfold generated. rewrite <- map_app. f_equal.
  replace (k'' - k) with ((k' - k) + (k'' - k')) by lia.
  rewrite seq_app. do 2 f_equal. lia.
Qed.

Lemma generated_two k : generated k (S (S k)) = [Str (uuid k); Str (uuid (S k))].
Proof.
  unfold generated. replace (S (S k) - k) with 2 by lia. reflexivity.
Qed.

Lemma generated_nil k : generated k k = [].
Proof. unfold generated. rewrite Nat.sub_diag. reflexivity. Qed.

(** Evaluates the next property of an object literal. *)
Ltac next_property :=
  rewrite properties_cons;
  cbv beta iota delta [callGenerateMOXUUID ret read].

Lemma mapFrom_generated (callback : value -> nat -> M value)
  (idsOf : value -> list value) (P : value -> Prop) :
  (forall x idx k, P x ->
     exists y k', callback x idx k = (Return y, k') /\ k <= k' /\
                  idsOf y = generated k k') ->
  forall l, Forall P l ->
  forall idx k,
    exists ys k', mapFrom callback idx l k = (Return ys, k') /\ k <= k' /\
                  flat_map idsOf ys = generated k k'.
Proof.
  intros Hcb l Hall. induction Hall as [| x l Hx Hl IH]; intros idx k.
  - exists [], k. repeat split; [lia | rewrite generated_nil; reflexivity].
  - destruct (Hcb x idx k Hx) as (y & k1 & Hy & Hk1 & Hids).
    destruct (IH (S idx) k1) as (ys & k2 & Hys & Hk2 & Hidss).
    exists (y :: ys), k2. rewrite mapFrom_cons, Hy, Hys.
    repeat split; [lia |]. simpl. rewrite Hids, Hidss.
    apply generated_app; assumption.
Qed.

Lemma createSpecificationFromTemplate_run template sequence k :
  isObject template ->
  exists spec k',
    createSpecificationFromTemplate randomBytes template sequence k =
      (Return spec, k') /\
    k <= k' /\ ids spec = generated k k'.
Proof.
  intros [props ->]. unfold createSpecificationFromTemplate.
  rewrite object_run, properties_app. do 3 next_property.
  rewrite properties_nil, properties_copyOf.
  eexists _, _. split; [reflexivity |]. split; [lia |].
  rewrite generated_two. reflexivity.
Qed.

Lemma createParameterFromTemplate_run template k :
  isObject template ->
  exists param,
    createParameterFromTemplate randomBytes template k =
      (Return param, S (S k)) /\
    ids param = generated k (S (S k)).
Proof.
  intros [props ->]. unfold createParameterFromTemplate.
  rewrite object_run. do 12 next_property. rewrite properties_nil.
  eexists. split; [reflexivity |]. rewrite generated_two. reflexivity.
Qed.

Lemma createRangeFromTemplate_run template sequence k :
  rangeShape template ->
  exists range k',
    createRangeFromTemplate randomBytes template sequence k =
      (Return range, k') /\
    k <= k' /\ rangeIdentifiers range = generated k k'.
Proof.
  intros ([props ->] & Hparam & specs & Hspecs & Hall).
  unfold createRangeFromTemplate.
  rewrite object_run, properties_app. do 3 next_property.
  rewrite properties_nil, properties_app, properties_copyOf.
  do 4 next_property. rewrite bind_run. cbv beta iota delta [read ret].
  destruct (createParameterFromTemplate_run _ (S (S k)) Hparam)
    as (param & Hrun & Hids).
  rewrite Hrun. next_property. rewrite bind_run.
  cbv beta iota delta [read ret]. rewrite Hspecs, arrayMap_run.
  destruct (mapFrom_generated
              (fun specTemplate idx =>
                 createSpecificationFromTemplate randomBytes specTemplate
                   (Num (of_nat idx)))
              ids isObject
              ltac:(intros; apply createSpecificationFromTemplate_run;
                    assumption)
              specs Hall 0 (S (S (S (S k)))))
    as (ys & k' & Hys & Hk' & Hidss).
  rewrite Hys, properties_nil.
  eexists _, _. split; [reflexivity |]. split; [lia |].
  unfold rangeIdentifiers.
  match goal with
  | |- ids ?r ++ ids (field ?r "parameter") ++
       flat_map ids (items (field ?r "specifications")) = _ =>
      change (field r "parameter") with param;
      change (field r "specifications") with (Arr ys);
      change (ids r) with [Str (uuid k); Str (uuid (S k))]
  end.
  cbn [items]. rewrite Hids, Hidss, <- generated_two.
  rewrite !generated_app by lia. reflexivity.
Qed.

Lemma createFunctionFromTemplate_run template sequence k :
  functionShape template ->
  exists func k',
    createFunctionFromTemplate randomBytes template sequence k =
      (Return func, k') /\
    k <= k' /\ identifiers func = generated k k'.
Proof.
  intros ([props ->] & ranges & Hranges & Hall).
  unfold createFunctionFromTemplate.
  rewrite object_run, properties_app. do 3 next_property.
  rewrite properties_nil, properties_app, properties_copyOf.
  do 4 next_property. rewrite bind_run. cbv beta iota delta [read ret].
  rewrite Hranges, arrayMap_run.
  destruct (mapFrom_generated
              (fun rangeTemplate idx =>
                 createRangeFromTemplate randomBytes rangeTemplate
                   (Num (of_nat idx)))
              rangeIdentifiers rangeShape
              ltac:(intros; apply createRangeFromTemplate_run; assumption)
              ranges Hall 0 (S (S k)))
    as (ys & k' & Hys & Hk' & Hidss).
  rewrite Hys. do 2 next_property. rewrite properties_nil.
  eexists _, _. split; [reflexivity |]. split; [lia |].
  unfold identifiers.
  match goal with
  | |- ids ?f ++ flat_map rangeIdentifiers (items (field ?f "ranges")) = _ =>
      change (field f "ranges") with (Arr ys);
      change (ids f) with [Str (uuid k); Str (uuid (S k))]
  end.
  cbn [items]. rewrite Hidss, <- generated_two.
  rewrite generated_app by lia. reflexivity.
Qed.

Lemma NoDup_generated k k' :
  NoDup (map uuid (seq k (k' - k))) -> NoDup (generated k k').
Proof.
  intros H. unfold generated. rewrite <- (map_map uuid Str).
  assert (Hinj : Inj eq eq Str) by (intros a b [= ->]; reflexivity).
  apply (NoDup_fmap_2 Str). exact H.
Qed.

(** C5. Two instantiations of one template, the second following the first,
    both return, and no identifier (pui or dui of the function, of a range,
    of a parameter or of a specification) of the first tree is an identifier
    of the second, provided the identifiers that the generator returns
    during the two calls are pairwise distinct.  The identifiers of the two
    trees are then all distinct from one another. *)
Theorem createFunctionFromTemplate_disjoint_identifiers
  template sequence1 sequence2 k :
  let first := createFunctionFromTemplate randomBytes template sequence1 k in
  let second :=
    createFunctionFromTemplate randomBytes template sequence2 (snd first) in
  functionShape template ->
  NoDup (map uuid (seq k (snd second - k))) ->
  exists func1 func2,
    fst first = Return func1 /\ fst second = Return func2 /\
    (forall id, In id (identifiers func1) -> ~ In id (identifiers func2)) /\
    NoDup (identifiers func1 ++ identifiers func2).
Proof.
  intros first second Hshape Hfresh.
  destruct (createFunctionFromTemplate_run template sequence1 k Hshape)
    as (func1 & k1 & Hrun1 & Hk1 & Hids1).
  destruct (createFunctionFromTemplate_run template sequence2 k1 Hshape)
    as (func2 & k2 & Hrun2 & Hk2 & Hids2).
  assert (Hfirst : first = (Return func1, k1)) by exact Hrun1.
  assert (Hsecond : second = (Return func2, k2)).
  { unfold second. rewrite Hfirst. exact Hrun2. }
  rewrite Hsecond in Hfresh. cbn [snd] in Hfresh.
  apply NoDup_generated in Hfresh.
  rewrite <- (generated_app k k1 k2) in Hfresh by assumption.
  rewrite <- Hids1, <- Hids2 in Hfresh.
  exists func1, func2. rewrite Hfirst, Hsecond.
  split; [reflexivity |]. split; [reflexivity |]. split; [| exact Hfresh].
  apply NoDup_app in Hfresh as (_ & Hdisjoint & _).
  intros id H1 H2. apply (Hdisjoint id); apply list_elem_of_In; assumption.
Qed.

End Fresh.

(** A source of random bytes for the examples: the call number. *)
Definition countingBytes (k : nat) : list N := [N.of_nat k].

Example create_voltage_dc_identifiers :
  option_map identifiers
    (match fst (createFunctionFromTemplate countingBytes voltage_dc
                  (Num (Fin 0)) 0) with
     | Return func => Some func
     | Throw => None
     end) =
  Some [ Str "{00000000-0000-4000-8000-000000000000}";
         Str "{01000000-0000-4000-8000-000000000000}";
         Str "{02000000-0000-4000-8000-000000000000}";
         Str "{03000000-0000-4000-8000-000000000000}";
         Str "{04000000-0000-4000-8000-000000000000}";
         Str "{05000000-0000-4000-8000-000000000000}";
         Str "{06000000-0000-4000-8000-000000000000}";
         Str "{07000000-0000-4000-8000-000000000000}" ].
Proof. reflexivity. Qed.

Lemma createFunctionFromTemplate_disjoint_identifiers_witness :
  let first :=
    createFunctionFromTemplate countingBytes voltage_dc (Num (Fin 0)) 0 in
  let second :=
    createFunctionFromTemplate countingBytes voltage_dc (Num (Fin 1))
      (snd first) in
  functionShape voltage_dc /\
  NoDup (map (uuid countingBytes) (seq 0 (snd second - 0))) /\
  exists func1 func2,
    fst first = Return func1 /\ fst second = Return func2 /\
    (forall id, In id (identifiers func1) -> ~ In id (identifiers func2)) /\
    NoDup (identifiers func1 ++ identifiers func2).
Proof.
  intros first second.
  assert (Hshape : functionShape voltage_dc).
  { split; [eexists; reflexivity |].
    eexists. split; [reflexivity |].
    repeat constructor; try (eexists; reflexivity).
    eexists. split; [reflexivity |].
    repeat constructor. eexists; reflexivity. }
  assert (Hfresh : NoDup (map (uuid countingBytes) (seq 0 (snd second - 0)))).
  { apply (bool_decide_unpack _). vm_compute. reflexivity. }
  split; [exact Hshape |]. split; [exact Hfresh |].
  exact (createFunctionFromTemplate_disjoint_identifiers countingBytes
           voltage_dc (Num (Fin 0)) (Num (Fin 1)) 0 Hshape Hfresh).
Defined.

Lemma functionShape_voltage_dc : functionShape voltage_dc.
Proof.
  split; [eexists; reflexivity |].
  eexists. split; [reflexivity |].
  repeat constructor; try (eexists; reflexivity).
  eexists. split; [reflexivity |].
  repeat constructor. eexists; reflexivity.
Qed.

Lemma value_eq_undefined_or_null (v : value) :
  {v = Undefined} + {v = Null} + {v <> Undefined /\ v <> Null}.
Proof.
  destruct v; try (right; split; discriminate);
    [left; left | left; right]; reflexivity.
Qed.

(** *** The tree that an instantiation builds *)

Section Created.

Variable randomBytes : nat -> list N.

#[local] Abbreviation uuid := (uuid randomBytes).

(** What the four [create...FromTemplate] functions return when the
    generator has been called [k] times before. *)
Definition createdSpecification (template sequence : value) (k : nat) : value :=
  Obj ([ ("pui", Str (uuid k)); ("dui", Str (uuid (S k)));
         ("sequence", sequence) ] ++
       pick template specificationFields).

Fixpoint createdSpecifications (templates : list value) (idx k : nat)
  : list value :=
  match templates with
  | [] => []
  | template :: rest =>
      createdSpecification template (Num (of_nat idx)) k ::
      createdSpecifications rest (S idx) (S (S k))
  end.

Definition createdParameter (template : value) (k : nat) : value :=
  Obj [ ("pui", Str (uuid k)); ("dui", Str (uuid (S k)));
        ("sequence", Num (Fin 0));
        ("lowerlimit", field template "lowerlimit");
        ("upperlimit", field template "upperlimit");
        ("unitofmeasure", field template "unitofmeasure");
        ("unitsymbol", field template "unitsymbol");
        ("isbipolar", field template "isbipolar");
        ("noteidlist", Str "");
        ("paramname", field template "paramname");
        ("verified", Bool false);
        ("review", Bool false) ].

(** The calls of the generator for one range: two for the range, two for
    its parameter and two for each specification. *)
Definition rangeCalls (template : value) : nat :=
  4 + 2 * length (items (field template "specifications")).

Definition createdRange (template sequence : value) (k : nat) : value :=
  Obj ([ ("pui", Str (uuid k)); ("dui", Str (uuid (S k)));
         ("sequence", sequence) ] ++
       pick template rangeFields ++
       [ ("noteidlist", Str "");
         ("verified", Bool false);
         ("review", Bool false);
         ("parameter", createdParameter (field template "parameter") (2 + k));
         ("specifications",
          Arr (createdSpecifications
                 (items (field template "specifications")) 0 (4 + k))) ]).

Fixpoint createdRanges (templates : list value) (idx k : nat) : list value :=
  match templates with
  | [] => []
  | template :: rest =>
      createdRange template (Num (of_nat idx)) k ::
      createdRanges rest (S idx) (rangeCalls template + k)
  end.

Definition functionCalls (template : value) : nat :=
  2 + list_sum (map rangeCalls (items (field template "ranges"))).

Definition createdFunction (template sequence : value) (k : nat) : value :=
  Obj ([ ("pui", Str (uuid k)); ("dui", Str (uuid (S k)));
         ("sequence", sequence) ] ++
       pick template functionFields ++
       [ ("noteidlist", Str "");
         ("verified", Bool false);
         ("review", Bool false);
         ("ranges",
          Arr (createdRanges (items (field template "ranges")) 0 (2 + k)));
         ("_uiExpanded", Bool false);
         ("_uiStatus", Str "unreviewed") ]).

(** Evaluates the next property of an object literal. *)
Ltac property :=
  rewrite properties_cons;
  cbv beta iota delta [callGenerateMOXUUID ret read].

Lemma createSpecificationFromTemplate_created template sequence k :
  isObject template ->
  createSpecificationFromTemplate randomBytes template sequence k =
  (Return (createdSpecification template sequence k), 2 + k).
Proof.
  intros [props ->]. unfold createSpecificationFromTemplate.
  rewrite object_run, properties_app. do 3 property.
  rewrite properties_nil, properties_copyOf. reflexivity.
Qed.

Lemma createSpecifications_created templates :
  Forall isObject templates ->
  forall idx k,
    mapFrom
      (fun specTemplate idx =>
         createSpecificationFromTemplate randomBytes specTemplate
           (Num (of_nat idx)))
      idx templates k =
    (Return (createdSpecifications templates idx k), 2 * length templates + k).
Proof.
  induction 1 as [| template templates Ht _ IH]; intros idx k.
  - reflexivity.
  - rewrite mapFrom_cons, createSpecificationFromTemplate_created by exact Ht.
    rewrite IH. cbn [createdSpecifications length]. f_equal. lia.
Qed.

Lemma createParameterFromTemplate_created template k :
  isObject template ->
  createParameterFromTemplate randomBytes template k =
  (Return (createdParameter template k), 2 + k).
Proof.
  intros [props ->]. unfold createParameterFromTemplate.
  rewrite object_run. do 12 property. rewrite properties_nil. reflexivity.
Qed.

Lemma createRangeFromTemplate_created template sequence k :
  rangeShape template ->
  createRangeFromTemplate randomBytes template sequence k =
  (Return (createdRange template sequence k), rangeCalls template + k).
Proof.
  intros ([props ->] & Hparam & specs & Hspecs & Hall).
  unfold createRangeFromTemplate.
  rewrite object_run, properties_app. do 3 property.
  rewrite properties_nil, properties_app, properties_copyOf.
  do 4 property. rewrite bind_run. cbv beta iota delta [read ret].
  rewrite (createParameterFromTemplate_created _ _ Hparam).
  property. rewrite bind_run. cbv beta iota delta [read ret].
  rewrite Hspecs, arrayMap_run, (createSpecifications_created _ Hall).
  rewrite properties_nil.
  unfold createdRange, rangeCalls. rewrite Hspecs. cbn [items].
  f_equal. lia.
Qed.

Lemma createRanges_created templates :
  Forall rangeShape templates ->
  forall idx k,
    mapFrom
      (fun rangeTemplate idx =>
         createRangeFromTemplate randomBytes rangeTemplate (Num (of_nat idx)))
      idx templates k =
    (Return (createdRanges templates idx k),
     list_sum (map rangeCalls templates) + k).
Proof.
  induction 1 as [| template templates Ht _ IH]; intros idx k.
  - reflexivity.
  - rewrite mapFrom_cons, createRangeFromTemplate_created by exact Ht.
    rewrite IH. cbn [createdRanges].
    change (list_sum (map rangeCalls (template :: templates)))
      with (rangeCalls template + list_sum (map rangeCalls templates)).
    f_equal. lia.
Qed.

Lemma createFunctionFromTemplate_created template sequence k :
  functionShape template ->
  createFunctionFromTemplate randomBytes template sequence k =
  (Return (createdFunction template sequence k), functionCalls template + k).
Proof.
  intros ([props ->] & ranges & Hranges & Hall).
  unfold createFunctionFromTemplate.
  rewrite object_run, properties_app. do 3 property.
  rewrite properties_nil, properties_app, properties_copyOf.
  do 4 property. rewrite bind_run. cbv beta iota delta [read ret].
  rewrite Hranges, arrayMap_run, (createRanges_created _ Hall).
  do 2 property. rewrite properties_nil.
  unfold createdFunction, functionCalls. rewrite Hranges. cbn [items].
  f_equal. lia.
Qed.

(** **** The created tree has the shape of a function *)

Lemma createdSpecifications_objects templates idx k :
  Forall isObject (createdSpecifications templates idx k).
Proof.
  revert idx k. induction templates as [| t ts IH]; intros idx k;
    constructor; [eexists; reflexivity | apply IH].
Qed.

Lemma rangeShape_createdRange template sequence k :
  rangeShape (createdRange template sequence k).
Proof.
  split; [eexists; reflexivity |]. split; [eexists; reflexivity |].
  eexists. split; [reflexivity | apply createdSpecifications_objects].
Qed.

Lemma createdRanges_shape templates idx k :
  Forall rangeShape (createdRanges templates idx k).
Proof.
  revert idx k. induction templates as [| t ts IH]; intros idx k;
    constructor; [apply rangeShape_createdRange | apply IH].
Qed.

Lemma functionShape_createdFunction template sequence k :
  functionShape (createdFunction template sequence k).
Proof.
  split; [eexists; reflexivity |].
  eexists. split; [reflexivity | apply createdRanges_shape].
Qed.

(** **** Its content is the content of the template *)

Lemma template_of_createdSpecifications templates idx k :
  map specificationTemplateOf (createdSpecifications templates idx k) =
  map specificationTemplateOf templates.
Proof.
  revert idx k. induction templates as [| t ts IH]; intros idx k;
    [reflexivity |].
  cbn [createdSpecifications map]. rewrite IH. reflexivity.
Qed.

Lemma template_of_createdRange template sequence k :
  rangeTemplateOf (createdRange template sequence k) = rangeTemplateOf template.
Proof.
  unfold rangeTemplateOf.
  change (field (createdRange template sequence k) "specifications")
    with (Arr (createdSpecifications
                 (items (field template "specifications")) 0 (4 + k))).
  cbn [items]. rewrite template_of_createdSpecifications. reflexivity.
Qed.

Lemma template_of_createdRanges templates idx k :
  map rangeTemplateOf (createdRanges templates idx k) =
  map rangeTemplateOf templates.
Proof.
  revert idx k. induction templates as [| t ts IH]; intros idx k;
    [reflexivity |].
  cbn [createdRanges map]. rewrite IH, template_of_createdRange. reflexivity.
Qed.

Lemma template_of_createdFunction template sequence k :
  functionTemplateOf (createdFunction template sequence k) =
  functionTemplateOf template.
Proof.
  unfold functionTemplateOf.
  change (field (createdFunction template sequence k) "ranges")
    with (Arr (createdRanges (items (field template "ranges")) 0 (2 + k))).
  cbn [items]. rewrite template_of_createdRanges. reflexivity.
Qed.

Lemma template_of_template_specifications specs :
  map specificationTemplateOf (map specificationTemplateOf specs) =
  map specificationTemplateOf specs.
Proof. rewrite map_map. apply map_ext. reflexivity. Qed.

Lemma template_of_rangeTemplate range :
  rangeTemplateOf (rangeTemplateOf range) = rangeTemplateOf range.
Proof.
  unfold rangeTemplateOf at 1.
  change (field (rangeTemplateOf range) "specifications")
    with (Arr (map specificationTemplateOf
                 (items (field range "specifications")))).
  cbn [items]. rewrite template_of_template_specifications. reflexivity.
Qed.

Lemma template_of_functionTemplate func :
  functionTemplateOf (functionTemplateOf func) = functionTemplateOf func.
Proof.
  unfold functionTemplateOf at 1.
  change (field (functionTemplateOf func) "ranges")
    with (Arr (map rangeTemplateOf (items (field func "ranges")))).
  cbn [items]. rewrite map_map.
  rewrite (map_ext _ _ template_of_rangeTemplate). reflexivity.
Qed.

Lemma functionShape_template func : functionShape (functionTemplateOf func).
Proof.
  split; [eexists; reflexivity |].
  eexists. split; [reflexivity |].
  apply Forall_map, Forall_forall. intros range _.
  split; [eexists; reflexivity |]. split; [eexists; reflexivity |].
  eexists. split; [reflexivity |].
  apply Forall_map, Forall_forall. intros spec _. eexists; reflexivity.
Qed.

(** Extracting the template of an instantiation gives the template back:
    for any template of the right shape, the extraction returns the content
    fields of the template; and for a template that itself comes from
    [extractFunctionTemplate], it returns that very template. *)
Theorem extract_of_create template sequence k :
  functionShape template ->
  exists func k',
    createFunctionFromTemplate randomBytes template sequence k =
      (Return func, k') /\
    extractFunctionTemplate func k' =
      (Return (functionTemplateOf template), k') /\
    (forall source k0,
       extractFunctionTemplate source k0 = (Return template, k0) ->
       functionShape source ->
       extractFunctionTemplate func k' = (Return template, k')).
Proof.
  intros Hshape. eexists _, _.
  split; [apply createFunctionFromTemplate_created; exact Hshape |].
  rewrite extractFunctionTemplate_run by apply functionShape_createdFunction.
  rewrite template_of_createdFunction.
  split; [reflexivity |].
  intros source k0 Hrun Hsource.
  rewrite extractFunctionTemplate_run in Hrun by exact Hsource.
  injection Hrun as <-. rewrite template_of_functionTemplate. reflexivity.
Qed.

(** **** Sequence numbers *)

Lemma createdSpecifications_nth templates :
  forall idx k j spec,
    nth_error (createdSpecifications templates idx k) j = Some spec ->
    exists template,
      nth_error templates j = Some template /\
      spec = createdSpecification template (Num (of_nat (idx + j))) (2 * j + k).
Proof.
  induction templates as [| t ts IH]; intros idx k [| j] spec H;
    try discriminate H.
  - injection H as <-. exists t. rewrite Nat.add_0_r. split; reflexivity.
  - cbn [createdSpecifications nth_error] in H.
    apply IH in H as (template & Hnth & ->). exists template.
    split; [exact Hnth |]. f_equal; [do 2 f_equal |]; lia.
Qed.

Lemma createdRanges_nth templates :
  forall idx k i range,
    nth_error (createdRanges templates idx k) i = Some range ->
    exists template k',
      nth_error templates i = Some template /\
      range = createdRange template (Num (of_nat (idx + i))) k'.
Proof.
  induction templates as [| t ts IH]; intros idx k [| i] range H;
    try discriminate H.
  - injection H as <-. exists t, k. rewrite Nat.add_0_r. split; reflexivity.
  - cbn [createdRanges nth_error] in H.
    apply IH in H as (template & k' & Hnth & ->). exists template, k'.
    split; [exact Hnth |]. do 3 f_equal. lia.
Qed.

Lemma createdRanges_length templates idx k :
  length (createdRanges templates idx k) = length templates.
Proof.
  revert idx k. induction templates as [| t ts IH]; intros idx k;
    [reflexivity |].
  cbn [createdRanges length]. rewrite IH. reflexivity.
Qed.

Lemma createdSpecifications_length templates idx k :
  length (createdSpecifications templates idx k) = length templates.
Proof.
  revert idx k. induction templates as [| t ts IH]; intros idx k;
    [reflexivity |].
  cbn [createdSpecifications length]. rewrite IH. reflexivity.
Qed.

(** An instantiation numbers its entities: the function carries the
    sequence number it was given, the range created from the [i]-th range
    template carries [i], its specification created from the [j]-th
    specification template carries [j], and every parameter carries 0.  It
    has as many ranges as the template, and each range as many
    specifications as its template. *)
Theorem createFunctionFromTemplate_sequence_numbers template sequence k :
  functionShape template ->
  exists func k',
    createFunctionFromTemplate randomBytes template sequence k =
      (Return func, k') /\
    field func "sequence" = sequence /\
    length (items (field func "ranges")) =
      length (items (field template "ranges")) /\
    forall i range,
      nth_error (items (field func "ranges")) i = Some range ->
      exists rangeTemplate,
        nth_error (items (field template "ranges")) i = Some rangeTemplate /\
        field range "sequence" = Num (of_nat i) /\
        field (field range "parameter") "sequence" = Num (Fin 0) /\
        length (items (field range "specifications")) =
          length (items (field rangeTemplate "specifications")) /\
        forall j spec,
          nth_error (items (field range "specifications")) j = Some spec ->
          field spec "sequence" = Num (of_nat j).
Proof.
  intros Hshape. eexists _, _.
  split; [apply createFunctionFromTemplate_created; exact Hshape |].
  split; [reflexivity |].
  change (field (createdFunction template sequence k) "ranges")
    with (Arr (createdRanges (items (field template "ranges")) 0 (2 + k))).
  cbn [items]. split; [apply createdRanges_length |].
  intros i range (rangeTemplate & k' & Hnth & ->)%createdRanges_nth.
  exists rangeTemplate. split; [exact Hnth |].
  split; [reflexivity |]. split; [reflexivity |].
  change (field (createdRange rangeTemplate (Num (of_nat (0 + i))) k')
            "specifications")
    with (Arr (createdSpecifications
                 (items (field rangeTemplate "specifications")) 0 (4 + k'))).
  cbn [items]. split; [apply createdSpecifications_length |].
  intros j spec (specTemplate & _ & ->)%createdSpecifications_nth.
  reflexivity.
Qed.

(** **** Audit and view fields *)

(** The audit fields as a new entity has them. *)
Definition unaudited (o : value) : Prop :=
  field o "verified" = Bool false /\ field o "review" = Bool false /\
  field o "noteidlist" = Str "".

Lemma In_createdRanges range templates idx k :
  In range (createdRanges templates idx k) ->
  exists template sequence k', range = createdRange template sequence k'.
Proof.
  intros (i & H)%In_nth_error.
  apply createdRanges_nth in H as (template & k' & _ & ->). eauto.
Qed.

Lemma In_createdSpecifications spec templates idx k :
  In spec (createdSpecifications templates idx k) ->
  exists template sequence k', spec = createdSpecification template sequence k'.
Proof.
  intros (j & H)%In_nth_error.
  apply createdSpecifications_nth in H as (template & _ & ->). eauto.
Qed.

(** A new function, its ranges and their parameters are unverified, not
    under review and without notes, whatever the template holds; the
    function is collapsed and unreviewed in the view.  A new specification
    has none of the audit fields, and no entity below the function has a
    view field. *)
Theorem createFunctionFromTemplate_audit_defaults template sequence k :
  functionShape template ->
  exists func k',
    createFunctionFromTemplate randomBytes template sequence k =
      (Return func, k') /\
    unaudited func /\
    field func "_uiExpanded" = Bool false /\
    field func "_uiStatus" = Str "unreviewed" /\
    forall range, In range (items (field func "ranges")) ->
      unaudited range /\ unaudited (field range "parameter") /\
      ~ hasProperty range "_uiExpanded" /\ ~ hasProperty range "_uiStatus" /\
      forall spec, In spec (items (field range "specifications")) ->
        forall key,
          In key ["verified"; "review"; "noteidlist"; "_uiExpanded";
                  "_uiStatus"] ->
          ~ hasProperty spec key.
Proof.
  intros Hshape. eexists _, _.
  split; [apply createFunctionFromTemplate_created; exact Hshape |].
  split; [repeat split |]. split; [reflexivity |]. split; [reflexivity |].
  change (field (createdFunction template sequence k) "ranges")
    with (Arr (createdRanges (items (field template "ranges")) 0 (2 + k))).
  cbn [items].
  intros range (rangeTemplate & s & k' & ->)%In_createdRanges.
  split; [repeat split |]. split; [repeat split |].
  split; [| split].
  - unfold hasProperty, createdRange. rewrite map_app, keys_pick.
    apply (disjointb_spec ["_uiExpanded"; "_uiStatus"]); [reflexivity |].
    left; reflexivity.
  - unfold hasProperty, createdRange. rewrite map_app, keys_pick.
    apply (disjointb_spec ["_uiExpanded"; "_uiStatus"]); [reflexivity |].
    right; left; reflexivity.
  - change (field (createdRange rangeTemplate s k') "specifications")
      with (Arr (createdSpecifications
                   (items (field rangeTemplate "specifications")) 0 (4 + k'))).
    cbn [items].
    intros spec (specTemplate & s' & k'' & ->)%In_createdSpecifications key Hkey.
    unfold hasProperty, createdSpecification.
    rewrite <- (app_nil_r (pick specTemplate specificationFields)).
    rewrite map_app, keys_pick.
    revert key Hkey. apply disjointb_spec. reflexivity.
Qed.

(** **** The identifiers of the tree *)

(** An instantiation calls the generator twice for the function and, for
    each range, four times and twice more for each specification.  The tree
    holds as many identifiers, and each of them is a string that
    [isValidMOXUUID] accepts. *)
Theorem createFunctionFromTemplate_identifiers_valid template sequence k :
  functionShape template ->
  exists func,
    createFunctionFromTemplate randomBytes template sequence k =
      (Return func, functionCalls template + k) /\
    length (identifiers func) = functionCalls template /\
    Forall (fun id =>
              exists s, id = Str s /\ UuidGenerator.isValidMOXUUID s = true)
      (identifiers func).
Proof.
  intros Hshape.
  destruct (createFunctionFromTemplate_run randomBytes template sequence k Hshape)
    as (func & k' & Hrun & Hk & Hids).
  rewrite createFunctionFromTemplate_created in Hrun by exact Hshape.
  injection Hrun as <- <-.
  exists (createdFunction template sequence k).
  split; [apply createFunctionFromTemplate_created; exact Hshape |].
  rewrite Hids. unfold generated. split.
  - rewrite length_map, length_seq. unfold functionCalls. lia.
  - apply Forall_map, Forall_forall. intros i _. exists (uuid i).
    split; [reflexivity |].
    apply UuidGenerator.isValidMOXUUID_grammar,
      UuidGenerator.generateMOXUUID_grammar.
Qed.

(** **** Malformed input *)

Lemma properties_copyOf_readable o keys k :
  o <> Undefined -> o <> Null ->
  properties (copyOf o keys) k = (Return (pick o keys), k).
Proof.
  intros Hu Hn. unfold copyOf, pick.
  induction keys as [| key keys IH]; [reflexivity |].
  cbn [map]. rewrite properties_cons.
  assert (Hread : read o key k = (Return (field o key), k))
    by (destruct o; try reflexivity; congruence).
  rewrite Hread, IH. reflexivity.
Qed.

Lemma arrayMap_not_array a callback k :
  (forall l, a <> Arr l) -> arrayMap a callback k = (Throw, k).
Proof.
  intros H. destruct a as [| | | | | elements |]; try reflexivity.
  elim (H elements). reflexivity.
Qed.

(** When the [ranges] of the argument is not an array (the argument may be
    [null], [undefined], or an object without ranges), both functions throw.
    [extractFunctionTemplate] has then done nothing, and
    [createFunctionFromTemplate] has drawn the two identifiers of the
    function, which are lost. *)
Theorem ranges_not_array_throws template sequence k :
  (forall l, field template "ranges" <> Arr l) ->
  extractFunctionTemplate template k = (Throw, k) /\
  createFunctionFromTemplate randomBytes template sequence k =
    (Throw, 2 + k).
Proof.
  intros Hranges.
  destruct (value_eq_undefined_or_null template) as [[-> | ->] | [Hu Hn]];
    try (split; reflexivity).
  assert (Hread : forall k0,
            read template "ranges" k0 = (Return (field template "ranges"), k0))
    by (intros k0; destruct template; try reflexivity; congruence).
  split.
  - unfold extractFunctionTemplate.
    rewrite object_run, properties_app, properties_copyOf_readable by assumption.
    rewrite properties_cons, bind_run, Hread.
    rewrite arrayMap_not_array by exact Hranges. reflexivity.
  - unfold createFunctionFromTemplate.
    rewrite object_run, properties_app. do 3 property.
    rewrite properties_nil, properties_app, properties_copyOf_readable
      by assumption.
    do 3 property. rewrite properties_cons, bind_run, Hread.
    rewrite arrayMap_not_array by exact Hranges. reflexivity.
Qed.

End Created.

Lemma extract_of_create_witness :
  functionShape voltage_dc /\
  exists func k',
    createFunctionFromTemplate countingBytes voltage_dc (Num (Fin 0)) 0 =
      (Return func, k') /\
    extractFunctionTemplate func k' =
      (Return (functionTemplateOf voltage_dc), k') /\
    (forall source k0,
       extractFunctionTemplate source k0 = (Return voltage_dc, k0) ->
       functionShape source ->
       extractFunctionTemplate func k' = (Return voltage_dc, k')).
Proof.
  split; [exact functionShape_voltage_dc |].
  exact (extract_of_create countingBytes voltage_dc (Num (Fin 0)) 0
           functionShape_voltage_dc).
Defined.

Lemma createFunctionFromTemplate_sequence_numbers_witness :
  functionShape voltage_dc /\
  exists func k',
    createFunctionFromTemplate countingBytes voltage_dc (Num (Fin 7)) 0 =
      (Return func, k') /\
    field func "sequence" = Num (Fin 7) /\
    length (items (field func "ranges")) =
      length (items (field voltage_dc "ranges")) /\
    forall i range,
      nth_error (items (field func "ranges")) i = Some range ->
      exists rangeTemplate,
        nth_error (items (field voltage_dc "ranges")) i = Some rangeTemplate /\
        field range "sequence" = Num (of_nat i) /\
        field (field range "parameter") "sequence" = Num (Fin 0) /\
        length (items (field range "specifications")) =
          length (items (field rangeTemplate "specifications")) /\
        forall j spec,
          nth_error (items (field range "specifications")) j = Some spec ->
          field spec "sequence" = Num (of_nat j).
Proof.
  split; [exact functionShape_voltage_dc |].
  exact (createFunctionFromTemplate_sequence_numbers countingBytes
           voltage_dc (Num (Fin 7)) 0 functionShape_voltage_dc).
Defined.

Lemma createFunctionFromTemplate_audit_defaults_witness :
  functionShape voltage_dc /\
  exists func k',
    createFunctionFromTemplate countingBytes voltage_dc (Num (Fin 0)) 0 =
      (Return func, k') /\
    unaudited func /\
    field func "_uiExpanded" = Bool false /\
    field func "_uiStatus" = Str "unreviewed" /\
    forall range, In range (items (field func "ranges")) ->
      unaudited range /\ unaudited (field range "parameter") /\
      ~ hasProperty range "_uiExpanded" /\ ~ hasProperty range "_uiStatus" /\
      forall spec, In spec (items (field range "specifications")) ->
        forall key,
          In key ["verified"; "review"; "noteidlist"; "_uiExpanded";
                  "_uiStatus"] ->
          ~ hasProperty spec key.
Proof.
  split; [exact functionShape_voltage_dc |].
  exact (createFunctionFromTemplate_audit_defaults countingBytes
           voltage_dc (Num (Fin 0)) 0 functionShape_voltage_dc).
Defined.

Lemma createFunctionFromTemplate_identifiers_valid_witness :
  functionShape voltage_dc /\
  exists func,
    createFunctionFromTemplate countingBytes voltage_dc (Num (Fin 0)) 0 =
      (Return func, functionCalls voltage_dc + 0) /\
    length (identifiers func) = functionCalls voltage_dc /\
    Forall (fun id =>
              exists s, id = Str s /\ UuidGenerator.isValidMOXUUID s = true)
      (identifiers func).
Proof.
  split; [exact functionShape_voltage_dc |].
  exact (createFunctionFromTemplate_identifiers_valid countingBytes
           voltage_dc (Num (Fin 0)) 0 functionShape_voltage_dc).
Defined.

Lemma ranges_not_array_throws_witness :
  (forall l, field (Obj [("functionname", Str "No ranges")]) "ranges" <> Arr l) /\
  extractFunctionTemplate (Obj [("functionname", Str "No ranges")]) 0 =
    (Throw, 0) /\
  createFunctionFromTemplate countingBytes
    (Obj [("functionname", Str "No ranges")]) (Num (Fin 0)) 0 = (Throw, 2).
Proof.
  assert (H : forall l,
            field (Obj [("functionname", Str "No ranges")]) "ranges" <> Arr l)
    by (intros l; discriminate).
  split; [exact H |].
  exact (ranges_not_array_throws countingBytes
           (Obj [("functionname", Str "No ranges")]) (Num (Fin 0)) 0 H).
Defined.

End TemplateExtractor.
